(** * socket.io-go-emitter: the framing and addressing protocol of [emitter.go]

    A shallow embedding of [src/emitter.go] (package [SocketIO]) and the
    properties of its message framing, flag handling and channel naming.

    - Go values of type [interface{}] are the inductive type [value].
    - A Go [map[string]interface{}] is an [option (gmap string value)]:
      [None] is the nil map, which can be read and ranged over but whose
      assignment panics.
    - A Go slice is a list; nothing in the program tells a nil slice from
      an empty one ([append], [len] and [range] treat them alike).
    - A panic is the [Panic] case of [outcome].
    - The msgpack encoder, the redigo pool and the redis connection are
      external to the package; they are the section variables [Encode],
      [Get] and [Do]. *)

From stdpp Require Import gmap strings list fin_maps.
From stdpp Require Import pretty.
From Stdlib Require Import ZArith.
From Stdlib.Strings Require Import Byte.

Set Default Proof Using "Type".
Local Open Scope Z_scope.

(** ** Constants (emitter.go, lines 15-22) *)

Definition UID : string := "emitter".
Definition EVENT : Z := 2.
Definition BINARY_EVENT : Z := 5.

(** ** Go values *)

Module Go.

(** The dynamic values the emitter is handed as event arguments and that it
    stores in its flags and packets. *)
#[warnings="-register-all"] Inductive value : Type :=
| VNil                                    (* the nil interface value *)
| VBool (b : bool)
| VInt (n : Z)
| VString (s : string)
| VStrings (l : list string)              (* []string *)
| VFunc                                   (* a func value *)
| VBytes (b : list Byte.byte)             (* []byte *)
| VBuffer (b : list Byte.byte)            (* bytes.Buffer, by value *)
| VSlice (l : list value)                 (* []interface{} *)
| VMap (m : option (gmap string value)).  (* map[string]interface{} *)

(** The result of a call that may panic. *)
Inductive outcome (A : Type) : Type :=
| Ok (a : A)
| Panic (msg : string).
Arguments Ok {A} a.
Arguments Panic {A} msg.

#[export] Instance outcome_ret : MRet outcome := λ A a, Ok a.
#[export] Instance outcome_bind : MBind outcome := λ A B f x,
  match x with
  | Ok a => f a
  | Panic msg => Panic msg
  end.

(** [x == nil] for an interface value. *)
Definition isNil (v : value) : bool :=
  match v with
  | VNil => true
  | _ => false
  end.

(** [m[k]]: reading a map, nil map included, yields the zero value (nil)
    for an absent key. *)
Definition index (m : option (gmap string value)) (k : string) : value :=
  match m with
  | Some g => default VNil (g !! k)
  | None => VNil
  end.

(** [m[k] = v]: assignment panics on the nil map. *)
Definition assign (m : option (gmap string value)) (k : string) (v : value)
  : outcome (option (gmap string value)) :=
  match m with
  | Some g => Ok (Some (<[k := v]> g))
  | None => Panic "assignment to entry in nil map"
  end.

(** [delete(m, k)]: a no-op on the nil map. *)
Definition remove (m : option (gmap string value)) (k : string)
  : option (gmap string value) :=
  match m with
  | Some g => Some (delete k g)
  | None => None
  end.

(** [make(map[string]interface{})] *)
Definition make : option (gmap string value) := Some ∅.

(** [len(m)] *)
Definition len (m : option (gmap string value)) : nat :=
  match m with
  | Some g => size g
  | None => 0%nat
  end.

(** Does some value of the map satisfy [p]?  The order in which Go ranges
    over a map is unspecified; an "exists" does not depend on it. *)
Definition anyValue {A} (p : A → bool) (g : gmap string A) : bool :=
  map_fold (λ _ d acc, acc || p d) false g.

End Go.
Export Go.

(** ** Binary detection (emitter.go, lines 186-215) *)

(** What one turn of the loop of [HasBinary] does with the element it
    looks at. *)
Inductive verdict : Type :=
| ReturnTrue      (* return true *)
| ReturnFalse     (* return false *)
| Continue.       (* fall out of the switch, next element *)

Definition returnsTrue (r : verdict) : bool :=
  match r with
  | ReturnTrue => true
  | _ => false
  end.

(** The body of the [switch] on one element.  A recursive call
    [HasBinary(d)] runs the loop on the one-element slice [d]: it returns
    true exactly when the switch on [d] says [ReturnTrue]. *)
Fixpoint hasBinaryCase (data : value) : verdict :=
  match data with
  | VBytes _ => ReturnTrue
  | VBuffer _ => ReturnTrue
  | VSlice l =>
      if existsb (λ d, returnsTrue (hasBinaryCase d)) l
      then ReturnTrue else Continue
  | VMap (Some g) =>
      if anyValue (λ v, returnsTrue (hasBinaryCase v)) g
      then ReturnTrue else Continue
  | VMap None => Continue
  | _ => ReturnFalse
  end.

(** [HasBinary(dataSlice...)]: the loop over the arguments.  A nil
    [dataSlice] returns false at line 188, as the empty loop does. *)
Fixpoint HasBinary (dataSlice : list value) : bool :=
  match dataSlice with
  | [] => false
  | data :: rest =>
      match hasBinaryCase data with
      | ReturnTrue => true
      | ReturnFalse => false
      | Continue => HasBinary rest
      end
  end.

(** The specification's reading of "contains a raw byte sequence at any
    depth inside ordered sequences or string-keyed mappings". *)
Fixpoint containsBinary (v : value) : bool :=
  match v with
  | VBytes _ => true
  | VBuffer _ => true
  | VSlice l => existsb containsBinary l
  | VMap (Some g) => anyValue containsBinary g
  | _ => false
  end.

(** ** Packets built by [Emit] and [EmitBinary] (lines 159-184) *)

(** Lines 160-169: the packet of [Emit(event, data...)]. *)
Definition EmitPacket (event : string) (data : list value) : gmap string value :=
  let d := [VString event] ++ data in
  let eventType := if HasBinary data then BINARY_EVENT else EVENT in
  <["data" := VSlice d]> {["type" := VInt eventType]}.

(** Lines 177-182: the packet of [EmitBinary(event, data...)]. *)
Definition EmitBinaryPacket (event : string) (data : list value) : gmap string value :=
  let d := [VString event] ++ data in
  <["data" := VSlice d]> {["type" := VInt BINARY_EVENT]}.

(** ** The session (emitter.go, lines 24-50) *)

Record EmitterOpts : Type := {
  Host : string;
  Port : Z;
  OptsKey : string;        (* field [Key] of [EmitterOpts] *)
  Protocol : string;
  Addr : string
}.

Record BroadcastOpts : Type := {
  nsp : string;
  broadcastChannel : string;
  requestChannel : string
}.

(** The pool of redis connections is the transport, outside the package;
    the session keeps no other state. *)
Record Emitter : Type := {
  Key : string;
  rooms : list string;
  flags : option (gmap string value);
  opts : BroadcastOpts
}.

Definition withFlags (emitter : Emitter) (f : option (gmap string value)) : Emitter :=
  {| Key := Key emitter; rooms := rooms emitter; flags := f; opts := opts emitter |}.

Definition withRooms (emitter : Emitter) (r : list string) : Emitter :=
  {| Key := Key emitter; rooms := r; flags := flags emitter; opts := opts emitter |}.

(** Lines 93-110.  The returned error is always nil.  Neither [rooms] nor
    [flags] is given a value: both start as Go's zero value, the nil slice
    and the nil map. *)
Definition NewEmitter (o : EmitterOpts) : Emitter :=
  let key := if String.eqb (OptsKey o) "" then "socket.io" else OptsKey o in
  let nsp := "/" in
  let broadcastOpts :=
    {| nsp := "";
       broadcastChannel := key +:+ "#" +:+ nsp +:+ "#";
       requestChannel := key +:+ "-request#" +:+ nsp +:+ "#" |} in
  {| Key := key; rooms := []; flags := None; opts := broadcastOpts |}.

(** Lines 112-125 and 151-154: each setter is one map assignment. *)
Definition Join (emitter : Emitter) : outcome Emitter :=
  f ← assign (flags emitter) "join" (VBool true);
  mret (withFlags emitter f).

Definition Volatile (emitter : Emitter) : outcome Emitter :=
  f ← assign (flags emitter) "volatile" (VBool true);
  mret (withFlags emitter f).

Definition Broadcast (emitter : Emitter) : outcome Emitter :=
  f ← assign (flags emitter) "broadcast" (VBool true);
  mret (withFlags emitter f).

Definition Of (namespace : string) (emitter : Emitter) : outcome Emitter :=
  f ← assign (flags emitter) "nsp" (VString namespace);
  mret (withFlags emitter f).

(** Lines 132-140: the loop returns at the first equal room, otherwise the
    room is appended. *)
Definition In (room : string) (emitter : Emitter) : Emitter :=
  if existsb (λ r, String.eqb r room) (rooms emitter)
  then emitter
  else withRooms emitter (rooms emitter ++ [room]).

(** Lines 142-144. *)
Definition To (room : string) (emitter : Emitter) : Emitter :=
  In room emitter.

(** ** Emission (emitter.go, lines 217-254) *)

(** One write to standard error: a text printed with [fmt.Fprintf], or an
    entry of level error logged with [logrus.Errorf], which the logger
    writes to standard error with its own decoration (time, level) around
    the message. *)
Inductive stderrWrite : Type :=
| Printed (text : string)
| Logged (msg : string).

(** What the process has done to the outside: the PUBLISH commands it
    handed to [c.Do], oldest first, whatever connection the pool had given;
    the writes to standard error; and those of the commands that went to a
    live connection (an error connection sends nothing). *)
Record World : Type := {
  wire : list (string * list Byte.byte);
  stderr : list stderrWrite;
  sentLive : list (string * list Byte.byte)
}.

(** What [redisPool.Get()] does.  The pool is redigo's and outside the
    package: it hands out an idle connection (one that passed the
    [TestOnBorrow] of lines 80-83), or it calls the [Dial] of lines 69-79,
    in which [redis.Dial] answers nil or an error, or it hands out an error
    connection without dialling (the pool is exhausted or closed). *)
Inductive pooled : Type :=
| Idle
| Dialled (answer : option string)
| NoConnection (err : string).

(** Lines 69-79, the [Dial] of the pool: given the answer of [redis.Dial],
    the outside after the call and the error returned ([None]: a
    connection).  A failed dial is logged. *)
Definition Dial (answer : option string) (w : World) : World * option string :=
  match answer with
  | Some err =>
      ({| wire := wire w;
          stderr := stderr w ++ [Logged ("Failed to init redis pool: " +:+ err)];
          sentLive := sentLive w |},
       Some err)
  | None => (w, None)
  end.

(** The result of [enc.Encode(pack)]: the bytes written to the buffer, or
    the error. *)
Inductive encoded : Type :=
| Encoded (buf : list Byte.byte)
| EncodeError (err : string).

(** What a call of [emit] leaves: the session as it now is, the returned
    error ([None] is nil; the returned pointer is the session when the error
    is nil, and nil otherwise), the outside, and the envelope [pack] that
    was handed to the encoder. *)
Record EmitResult : Type := {
  session : Emitter;
  error : option string;
  world : World;
  pack : value
}.

(** Lines 227-230: a pending namespace moves from the flags to the packet. *)
Definition takeNsp (f packet : option (gmap string value))
  : outcome (option (gmap string value) * option (gmap string value)) :=
  if isNil (index f "nsp")
  then mret (f, packet)
  else
    packet' ← assign packet "nsp" (index f "nsp");
    mret (remove f "nsp", packet').

(** Lines 231-237: the envelope handed to the encoder. *)
Definition mkPack (r : list string) (f packet : option (gmap string value)) : value :=
  VSlice [VString UID;
          VMap packet;
          VMap (Some (<["flags" := VMap f]> {["rooms" := VStrings r]}))].

(** Lines 247-250. *)
Definition channelOf (emitter : Emitter) : outcome string :=
  let channel := broadcastChannel (opts emitter) in
  if (length (rooms emitter) =? 1)%nat
  then
    match rooms emitter !! 0%nat with
    | Some room => mret (broadcastChannel (opts emitter) +:+ room +:+ "#")
    | None => Panic "index out of range"
    end
  else mret channel.

Section Emission.

(** The msgpack encoder. *)
Variable Encode : value → encoded.

(** What the pool does when [Get] is called, given what the process has
    done to the outside so far. *)
Variable Get : World → pooled.

(** The reply of a live redis connection to [PUBLISH channel buf]: nil, or
    an error. *)
Variable Do : string → list Byte.byte → option string.

(** [e.redisPool.Get()]: the outside after the call, and the error the
    connection handed out carries ([None] for a live connection).  On an
    error connection [Do] returns that error and [Close] does nothing. *)
Definition poolGet (w : World) : World * option string :=
  match Get w with
  | Idle => (w, None)
  | Dialled answer => Dial answer w
  | NoConnection err => (w, Some err)
  end.

(** Lines 217-224. *)
Definition publish (w : World) (channel : string) (buf : list Byte.byte) : World :=
  let '(w1, broken) := poolGet w in
  let err := match broken with
             | Some e => Some e
             | None => Do channel buf
             end in
  let w2 := {| wire := wire w1 ++ [(channel, buf)];
               stderr := stderr w1;
               sentLive := match broken with
                           | Some _ => sentLive w1
                           | None => sentLive w1 ++ [(channel, buf)]
                           end |} in
  match err with
  | Some msg => {| wire := wire w2;
                   stderr := stderr w2 ++ [Printed ("ERROR: " +:+ msg)];
                   sentLive := sentLive w2 |}
  | None => w2
  end.

(** Lines 226-254. *)
Definition emit (emitter : Emitter) (w : World) (packet : option (gmap string value))
  : outcome EmitResult :=
  '(f, packet') ← takeNsp (flags emitter) packet;
  let emitter1 := withFlags emitter f in
  let pack := mkPack (rooms emitter1) (flags emitter1) packet' in
  match Encode pack with
  | EncodeError err =>
      mret {| session := emitter1; error := Some err; world := w; pack := pack |}
  | Encoded buf =>
      let emitter2 := withFlags emitter1 make in
      channel ← channelOf emitter2;
      mret {| session := emitter2; error := None;
              world := publish w channel buf; pack := pack |}
  end.

(** Lines 159-171. *)
Definition Emit (emitter : Emitter) (w : World) (event : string) (data : list value)
  : outcome EmitResult :=
  emit emitter w (Some (EmitPacket event data)).

(** Lines 176-184. *)
Definition EmitBinary (emitter : Emitter) (w : World) (event : string) (data : list value)
  : outcome EmitResult :=
  emit emitter w (Some (EmitBinaryPacket event data)).

(** Either of the two, by name. *)
Definition emitBy (binary : bool) : Emitter → World → string → list value → outcome EmitResult :=
  if binary then EmitBinary else Emit.

(** *** Sequences of calls on one session *)

(** The exported methods of the session. *)
Inductive call : Type :=
| CJoin
| CVolatile
| CBroadcast
| CIn (room : string)
| CTo (room : string)
| COf (namespace : string)
| CEmit (event : string) (data : list value)
| CEmitBinary (event : string) (data : list value).

(** One call on the session.  A call of [Emit] that returns an error is not
    a panic: the session lives on in the state the call left. *)
Definition step (c : call) (st : Emitter * World) : outcome (Emitter * World) :=
  let '(emitter, w) := st in
  match c with
  | CJoin => e ← Join emitter; mret (e, w)
  | CVolatile => e ← Volatile emitter; mret (e, w)
  | CBroadcast => e ← Broadcast emitter; mret (e, w)
  | CIn room => mret (In room emitter, w)
  | CTo room => mret (To room emitter, w)
  | COf namespace => e ← Of namespace emitter; mret (e, w)
  | CEmit event data => r ← Emit emitter w event data; mret (session r, world r)
  | CEmitBinary event data => r ← EmitBinary emitter w event data; mret (session r, world r)
  end.

(** The calls of [cs] in order; the first panic ends the run. *)
Fixpoint run (cs : list call) (st : Emitter * World) : outcome (Emitter * World) :=
  match cs with
  | [] => mret st
  | c :: cs' => st' ← step c st; run cs' st'
  end.

End Emission.

(** The outside before the process has done anything. *)
Definition quiet : World := {| wire := []; stderr := []; sentLive := [] |}.

(** The rooms asked for by a sequence of calls, in the order of the calls. *)
Fixpoint roomsAsked (cs : list call) : list string :=
  match cs with
  | [] => []
  | CIn room :: cs' => room :: roomsAsked cs'
  | CTo room :: cs' => room :: roomsAsked cs'
  | _ :: cs' => roomsAsked cs'
  end.

(** The first occurrence of every element, in order: the specification's
    "deduplicated, insertion order preserved". *)
Fixpoint firstOccurrences (l : list string) : list string :=
  match l with
  | [] => []
  | x :: l' => x :: filter (λ y, y ≠ x) (firstOccurrences l')
  end.

(** ** A codec and a connection to run the model on

    Concrete instances of the two external collaborators.  [sampleEncode]
    refuses a value that holds a func, as the msgpack encoder does
    ("msgpack: Encode(unsupported func())"), and otherwise writes a
    tag-and-length rendering of the value; the bytes themselves are not
    msgpack and no statement below depends on them. *)

Fixpoint encodable (v : value) : bool :=
  match v with
  | VFunc => false
  | VSlice l => forallb encodable l
  | VMap (Some g) => negb (anyValue (λ d, negb (encodable d)) g)
  | _ => true
  end.

Definition lengthByte (n : nat) : Byte.byte :=
  default Byte.xff (Byte.of_N (N.of_nat n)).

Fixpoint render (v : value) : list Byte.byte :=
  match v with
  | VNil => [Byte.xc0]
  | VBool false => [Byte.xc2]
  | VBool true => [Byte.xc3]
  | VInt n => [Byte.xd3; lengthByte (Z.to_nat n)]
  | VString s => Byte.xdb :: lengthByte (String.length s) :: String.list_byte_of_string s
  | VStrings l => [Byte.xdd; lengthByte (length l)]
  | VFunc => []
  | VBytes b => Byte.xc6 :: lengthByte (length b) :: b
  | VBuffer b => Byte.xc6 :: lengthByte (length b) :: b
  | VSlice l => Byte.xdd :: lengthByte (length l) :: flat_map render l
  | VMap None => [Byte.xc0]
  | VMap (Some g) =>
      Byte.xdf :: lengthByte (size g) ::
      map_fold (λ k d acc, String.list_byte_of_string k ++ render d ++ acc) [] g
  end.

Definition sampleEncode (v : value) : encoded :=
  if encodable v then Encoded (render v)
  else EncodeError "msgpack: Encode(unsupported func())".

(** A live connection on which every PUBLISH succeeds, and one on which
    every PUBLISH fails. *)
Definition connUp : string → list Byte.byte → option string := λ _ _, None.
Definition connDown : string → list Byte.byte → option string :=
  λ _ _, Some "write tcp 127.0.0.1:6379: write: broken pipe".

(** A pool that always has an idle connection, and one that has to dial
    every time and is refused. *)
Definition poolUp : World → pooled := λ _, Idle.
Definition poolDown : World → pooled :=
  λ _, Dialled (Some "dial tcp 127.0.0.1:6379: connect: connection refused").

(** A measure on values, for induction through slices and maps. *)
Fixpoint vsize (v : value) : nat :=
  match v with
  | VSlice l => S (foldr (λ d acc, vsize d + acc)%nat 0%nat l)
  | VMap (Some g) => S (map_fold (λ _ d acc, vsize d + acc)%nat 0%nat g)
  | _ => 1%nat
  end.

(** The options of a process that sets nothing: the key defaults to
    "socket.io". *)
Definition noOpts : EmitterOpts :=
  {| Host := ""; Port := 0; OptsKey := ""; Protocol := ""; Addr := "" |}.

(** The channels of the commands handed to [c.Do], oldest first. *)
Definition channels (w : World) : list string := fst <$> wire w.

(** The packet and the options of an envelope. *)
Definition packetOf (p : value) : option (gmap string value) :=
  match p with
  | VSlice [_; VMap packet; _] => packet
  | _ => None
  end.

Definition optionsOf (p : value) : option (gmap string value) :=
  match p with
  | VSlice [_; _; VMap options] => options
  | _ => None
  end.



(** The session and the outside a run ends with (those of a fresh process
    if the run panicked). *)
Definition sessionAfter (x : outcome (Emitter * World)) : Emitter :=
  match x with
  | Ok st => st.1
  | Panic _ => {| Key := ""; rooms := []; flags := None;
                  opts := {| nsp := ""; broadcastChannel := ""; requestChannel := "" |} |}
  end.

Definition worldAfter (x : outcome (Emitter * World)) : World :=
  match x with
  | Ok st => st.2
  | Panic _ => {| wire := []; stderr := []; sentLive := [] |}
  end.

(** The result of an emission (an empty result if it panicked). *)
Definition sessionResult (x : outcome EmitResult) : EmitResult :=
  match x with
  | Ok r => r
  | Panic _ => {| session := sessionAfter (Panic ""); error := None;
                  world := worldAfter (Panic ""); pack := VNil |}
  end.

(** A session of the default key that has emitted once and was then given
    the namespace "/chat" and the flag join. *)
Definition chatSession : Emitter :=
  withFlags (NewEmitter noOpts)
    (Some (<["join" := VBool true]> {["nsp" := VString "/chat"]})).

(** A run of the sample process: one room, a first emission, then a
    namespace and a flag. *)
Definition sampleCalls : list call :=
  [CIn "room1"; CEmit "init" []; COf "/chat"; CBroadcast; CTo "room1"].

Definition sampleRun : outcome (Emitter * World) :=
  run sampleEncode poolUp connUp sampleCalls (NewEmitter noOpts, quiet).

(** The bytes of a successful encoding. *)
Definition bytesOf (x : encoded) : list Byte.byte :=
  match x with
  | Encoded buf => buf
  | EncodeError _ => []
  end.

(** The packet of either way to emit. *)
Definition packetBy (binary : bool) (event : string) (data : list value)
  : gmap string value :=
  if binary then EmitBinaryPacket event data else EmitPacket event data.

(** What every session built by [NewEmitter] and used through its methods
    satisfies: the base channel is the key in the default namespace, no
    room occurs twice, and no flag holds nil. *)
Record consistent (emitter : Emitter) : Prop := {
  consistent_channel : broadcastChannel (opts emitter) = Key emitter +:+ "#/#";
  consistent_rooms : NoDup (rooms emitter);
  consistent_flags : ∀ g k, flags emitter = Some g → g !! k ≠ Some VNil
}.

(** ** The connection pool (emitter.go, lines 20-21 and 52-85) *)

Definition redisPoolMaxIdle : Z := 80.
Definition redisPoolMaxActive : Z := 10000.

(** [strconv.Itoa]: the decimal digits, with a minus sign below zero. *)
Definition Itoa (n : Z) : string := pretty n.

(** What [initRedisConnPool] fixes of the pool it returns: the two limits
    and the network and address that [Dial] dials.  The connections
    themselves are the transport. *)
Record Pool : Type := {
  MaxIdle : Z;
  MaxActive : Z;
  DialNetwork : string;
  DialAddr : string
}.

(** Lines 52-85.  The test of [opts.Host] at line 53 has an empty body. *)
Definition initRedisConnPool (o : EmitterOpts) : Pool :=
  let addr :=
    if negb (String.eqb (Addr o) "") then Addr o
    else if negb (String.eqb (Host o) "") && (0 <? Port o)
         then Host o +:+ ":" +:+ Itoa (Port o)
         else "localhost:6379" in
  {| MaxIdle := redisPoolMaxIdle; MaxActive := redisPoolMaxActive;
     DialNetwork := "tcp"; DialAddr := addr |}.

(** Line 94-96: [NewEmitter] writes the default key into the options it
    was given; these are the options after the call. *)
Definition optsAfterNewEmitter (o : EmitterOpts) : EmitterOpts :=
  {| Host := Host o; Port := Port o;
     OptsKey := if String.eqb (OptsKey o) "" then "socket.io" else OptsKey o;
     Protocol := Protocol o; Addr := Addr o |}.

(** Line 106: the pool of the session [NewEmitter] returns. *)
Definition NewEmitterPool (o : EmitterOpts) : Pool :=
  initRedisConnPool (optsAfterNewEmitter o).

(** ** Vocabulary for the further properties *)

(** The values on which the switch of [HasBinary] takes its default case:
    everything but [[]byte], [bytes.Buffer], [[]interface{}] and
    [map[string]interface{}]. *)
Definition isScalar (v : value) : bool :=
  match v with
  | VBytes _ | VBuffer _ | VSlice _ | VMap _ => false
  | _ => true
  end.

(** The arguments that stand before the first scalar. *)
Fixpoint beforeScalar (data : list value) : list value :=
  match data with
  | [] => []
  | d :: rest => if isScalar d then [] else d :: beforeScalar rest
  end.

(** The flags key a setter assigns, if the call is a setter. *)
Definition flagKey (c : call) : option string :=
  match c with
  | CJoin => Some "join"
  | CVolatile => Some "volatile"
  | CBroadcast => Some "broadcast"
  | COf _ => Some "nsp"
  | _ => None
  end.

(** The value a setter assigns. *)
Definition flagValue (c : call) : value :=
  match c with
  | COf namespace => VString namespace
  | _ => VBool true
  end.

(** The room a call asks for, if it is [In] or [To]. *)
Definition roomAsked (c : call) : option string :=
  match c with
  | CIn room | CTo room => Some room
  | _ => None
  end.

Definition isEmission (c : call) : bool :=
  match c with
  | CEmit _ _ | CEmitBinary _ _ => true
  | _ => false
  end.

(** The number of calls of [Emit] and [EmitBinary]. *)
Definition emissions (cs : list call) : nat := length (filter (λ c, isEmission c = true) cs).

(** Does the pool hand out a live connection? *)
Definition givesLive (g : pooled) : bool :=
  match g with
  | Idle | Dialled None => true
  | Dialled (Some _) | NoConnection _ => false
  end.

(** The two writes the package makes to standard error: the error printed by
    [publish] (line 222) and the error logged by [Dial] (line 72). *)
Definition printedError (x : stderrWrite) : Prop :=
  ∃ msg, x = Printed ("ERROR: " +:+ msg).

Definition failureWrite (x : stderrWrite) : Prop :=
  printedError x ∨ ∃ msg, x = Logged ("Failed to init redis pool: " +:+ msg).

(** What at most [n] emissions add to the outside [w] to give [w']: at
    most [n] commands handed to [c.Do], for each of them at most two writes
    to standard error, both reporting a failure, and at most one command on
    a live connection. *)
Definition added (Get : World → pooled) (Do : string → list Byte.byte → option string)
    (n : nat) (w w' : World) : Prop :=
  ∃ calls writes live,
    wire w' = wire w ++ calls ∧ stderr w' = stderr w ++ writes ∧
    sentLive w' = sentLive w ++ live ∧
    (length calls ≤ n)%nat ∧
    (length writes ≤ 2 * length calls)%nat ∧
    (length live ≤ length calls)%nat ∧
    Forall failureWrite writes ∧
    ((∀ w0, givesLive (Get w0) = true) →
     live = calls ∧ ((∀ channel buf, Do channel buf = None) → writes = [])) ∧
    ((∀ w0, givesLive (Get w0) = false) → live = []) ∧
    ((∀ w0 err, Get w0 ≠ Dialled (Some err)) → Forall printedError writes).

(** The entries the setters write: one of the three delivery flags with
    the value true, or the namespace with a string. *)
Definition flagEntry (k : string) (v : value) : Prop :=
  (k = "join" ∨ k = "volatile" ∨ k = "broadcast") ∧ v = VBool true ∨
  k = "nsp" ∧ ∃ namespace, v = VString namespace.

(** * Properties *)

(** ** Maps and values *)

Lemma anyValue_true {A} (p : A → bool) (g : gmap string A) :
  anyValue p g = true ↔ ∃ k d, g !! k = Some d ∧ p d = true.
Proof.
  unfold anyValue.
  apply (map_fold_weak_ind
           (λ b m, b = true ↔ ∃ k d, m !! k = Some d ∧ p d = true)).
  - split; [done|]. intros (k & d & Hk & _). by rewrite lookup_empty in Hk.
  - intros i x m r Hi [IH1 IH2]. rewrite orb_true_iff. split.
    + intros [Hr|Hx].
      * destruct (IH1 Hr) as (k & d & Hk & Hd). exists k, d. split; [|done].
        rewrite lookup_insert_ne; [done|]. intros ->. congruence.
      * exists i, x. by rewrite lookup_insert_eq.
    + intros (k & d & Hk & Hd). destruct (decide (i = k)) as [->|Hne].
      * rewrite lookup_insert_eq in Hk. right. congruence.
      * rewrite lookup_insert_ne in Hk by done. left. apply IH2. eauto.
Qed.

Lemma anyValue_ext {A} (p q : A → bool) (g : gmap string A) :
  (∀ k d, g !! k = Some d → p d = q d) → anyValue p g = anyValue q g.
Proof.
  intros Hpq. apply eq_true_iff_eq. rewrite !anyValue_true.
  split; intros (k & d & Hk & Hd); exists k, d; split; try done.
  - by rewrite <-(Hpq k d Hk).
  - by rewrite (Hpq k d Hk).
Qed.

Lemma vsize_slice (d : value) (l : list value) :
  d ∈ l → (vsize d < vsize (VSlice l))%nat.
Proof.
  simpl. induction 1 as [d l|d d' l _ IH]; simpl; lia.
Qed.

Lemma vsize_map (k : string) (d : value) (g : gmap string value) :
  g !! k = Some d → (vsize d < vsize (VMap (Some g)))%nat.
Proof.
  intros Hk. simpl. rewrite <-(insert_delete_id g k d Hk).
  rewrite map_fold_insert_L.
  - lia.
  - intros. lia.
  - apply lookup_delete_eq.
Qed.

(** Induction on a value through its slices and maps. *)
Lemma value_deep_ind (P : value → Prop) :
  (∀ v, (∀ l, v ≠ VSlice l) → (∀ g, v ≠ VMap (Some g)) → P v) →
  (∀ l, Forall P l → P (VSlice l)) →
  (∀ g, map_Forall (λ _, P) g → P (VMap (Some g))) →
  ∀ v, P v.
Proof.
  intros Hleaf Hslice Hmap v.
  remember (vsize v) as n eqn:Hn. revert v Hn.
  induction n as [n IH] using lt_wf_ind. intros v ->.
  destruct v as [| | | | | | | |l|[g|]]; try (apply Hleaf; done).
  - apply Hslice. apply Forall_forall. intros d Hd.
    eapply IH; [|done]. by apply vsize_slice.
  - apply Hmap. intros k d Hk. eapply IH; [|done]. by eapply vsize_map.
Qed.

(** ** Binary detection *)

(** On one value the detector is exact: the recursive calls scan every
    element of a slice and every value of a map, whatever stands next to
    them. *)
Lemma hasBinaryCase_exact (v : value) :
  returnsTrue (hasBinaryCase v) = containsBinary v.
Proof.
  induction v as [v Hs Hm|l IH|g IH] using value_deep_ind.
  - destruct v as [| | | | | | | |l|[g|]]; try done.
    + by destruct (Hs l).
    + by destruct (Hm g).
  - simpl. rewrite Forall_forall in IH.
    assert (existsb (λ d, returnsTrue (hasBinaryCase d)) l
            = existsb containsBinary l) as ->.
    { induction l as [|d l IHl]; [done|]. simpl.
      rewrite IH by left. rewrite IHl; [done|]. intros x Hx. apply IH. by right. }
    by destruct (existsb containsBinary l).
  - simpl. rewrite (anyValue_ext _ containsBinary g) by (intros k d Hk; by apply (IH k d)).
    by destruct (anyValue containsBinary g).
Qed.

Lemma HasBinary_single (v : value) : HasBinary [v] = containsBinary v.
Proof.
  rewrite <-hasBinaryCase_exact. simpl. by destruct (hasBinaryCase v).
Qed.

(** The detector never reports raw bytes that are not there: a payload
    without raw bytes is an EVENT. *)
Lemma HasBinary_sound (data : list value) :
  existsb containsBinary data = false → HasBinary data = false.
Proof.
  induction data as [|d data IH]; [done|]. simpl.
  rewrite orb_false_iff. intros [Hd Hdata].
  rewrite <-hasBinaryCase_exact in Hd.
  destruct (hasBinaryCase d); try done. by apply IH.
Qed.

(** Among arguments none of which is a scalar, the loop is exact too. *)
Lemma HasBinary_exact_without_scalars (data : list value) :
  Forall (λ d, hasBinaryCase d ≠ ReturnFalse) data →
  HasBinary data = existsb containsBinary data.
Proof.
  induction 1 as [|d data Hd _ IH]; [done|]. simpl.
  rewrite <-hasBinaryCase_exact, <-IH. by destruct (hasBinaryCase d).
Qed.

(** The loop gives its answer at the first scalar: what follows it is never
    looked at. *)
Lemma HasBinary_scalar_first (d : value) (rest : list value) :
  hasBinaryCase d = ReturnFalse → HasBinary (d :: rest) = false.
Proof. intros H. simpl. by rewrite H. Qed.

(** ** The session *)

Lemma In_spec (room : string) (emitter : Emitter) :
  In room emitter
  = if decide (room ∈ rooms emitter) then emitter
    else withRooms emitter (rooms emitter ++ [room]).
Proof.
  unfold In.
  destruct (existsb (λ r, String.eqb r room) (rooms emitter)) eqn:Hex.
  - apply existsb_exists in Hex as (r & Hr & Heq).
    apply String.eqb_eq in Heq as ->. apply list_elem_of_In in Hr.
    by rewrite decide_True.
  - rewrite decide_False; [done|]. intros Hr.
    apply not_true_iff_false in Hex. apply Hex, existsb_exists.
    exists room. split; [by apply list_elem_of_In|apply String.eqb_refl].
Qed.

Lemma withFlags_id (emitter : Emitter) : withFlags emitter (flags emitter) = emitter.
Proof. by destruct emitter. Qed.

Lemma takeNsp_ok (f : option (gmap string value)) (g : gmap string value) :
  takeNsp f (Some g)
  = Ok (if isNil (index f "nsp") then (f, Some g)
        else (remove f "nsp", Some (<["nsp" := index f "nsp"]> g))).
Proof. unfold takeNsp. by destruct (isNil (index f "nsp")). Qed.

Lemma channelOf_ok (emitter : Emitter) :
  channelOf emitter
  = Ok (match rooms emitter with
        | [room] => broadcastChannel (opts emitter) +:+ room +:+ "#"
        | _ => broadcastChannel (opts emitter)
        end).
Proof.
  unfold channelOf. by destruct (rooms emitter) as [|room [|room' rs]].
Qed.

(** Without nil among its values, a map has a non-nil ["nsp"] exactly when
    it has the key, and moving the namespace out is deleting the key. *)
Lemma index_nil_lookup (f : option (gmap string value)) (k : string) :
  (∀ g, f = Some g → g !! k ≠ Some VNil) →
  isNil (index f k) = true → f ≫= lookup k = None.
Proof.
  intros Hf. destruct f as [g|]; [|done]. simpl.
  destruct (g !! k) as [v|] eqn:Hk; [|done].
  destruct v; try done. by destruct (Hf g eq_refl).
Qed.

Lemma index_lookup (f : option (gmap string value)) (k : string) :
  isNil (index f k) = false → f ≫= lookup k = Some (index f k).
Proof.
  destruct f as [g|]; [|done]. simpl. by destruct (g !! k).
Qed.

Lemma remove_absent (f : option (gmap string value)) (k : string) :
  f ≫= lookup k = None → remove f k = f.
Proof.
  destruct f as [g|]; [|done]. simpl. intros Hk. by rewrite delete_id.
Qed.

Lemma remove_lookup (f : option (gmap string value)) (k : string) :
  remove f k ≫= lookup k = None.
Proof. destruct f as [g|]; [|done]. simpl. apply lookup_delete_eq. Qed.

Lemma remove_lookup_ne (f : option (gmap string value)) (k k' : string) :
  k ≠ k' → remove f k ≫= lookup k' = f ≫= lookup k'.
Proof. intros Hne. destruct f as [g|]; [|done]. simpl. by apply lookup_delete_ne. Qed.

Section EmissionFacts.

Variable Encode : value → encoded.
Variable Get : World → pooled.
Variable Do : string → list Byte.byte → option string.

(** [emit] on a packet that is a map (not the nil map) never panics, and
    this is all it does. *)
Lemma emit_cases (emitter : Emitter) (w : World) (g : gmap string value) :
  ∃ r, emit Encode Get Do emitter w (Some g) = Ok r ∧
    let taken := if isNil (index (flags emitter) "nsp")
                 then (flags emitter, g)
                 else (remove (flags emitter) "nsp",
                       <["nsp" := index (flags emitter) "nsp"]> g) in
    let channel := match rooms emitter with
                   | [room] => broadcastChannel (opts emitter) +:+ room +:+ "#"
                   | _ => broadcastChannel (opts emitter)
                   end in
    pack r = mkPack (rooms emitter) taken.1 (Some taken.2) ∧
    match Encode (pack r) with
    | EncodeError err =>
        session r = withFlags emitter taken.1 ∧ error r = Some err ∧ world r = w
    | Encoded buf =>
        session r = withFlags emitter make ∧ error r = None ∧
        world r = publish Get Do w channel buf
    end.
Proof.
  unfold emit. rewrite takeNsp_ok.
  destruct (isNil (index (flags emitter) "nsp")); simpl;
    match goal with
    | |- context [Encode ?p] => destruct (Encode p) as [buf|err] eqn:Henc
    end; simpl.
  all: try rewrite channelOf_ok; simpl.
  all: eexists; split; [reflexivity|]; simpl; rewrite Henc; done.
Qed.

End EmissionFacts.

(** ** What the methods keep *)

Lemma NewEmitter_consistent (o : EmitterOpts) : consistent (NewEmitter o).
Proof. split; simpl; [done|constructor|done]. Qed.

Lemma assign_Ok (f f' : option (gmap string value)) (k : string) (v : value) :
  assign f k v = Ok f' → ∃ g, f = Some g ∧ f' = Some (<[k := v]> g).
Proof. destruct f as [g|]; simpl; [|done]. intros [= <-]. eauto. Qed.

Lemma setter_consistent (emitter e' : Emitter) (k : string) (v : value) :
  v ≠ VNil →
  consistent emitter →
  (f ← assign (flags emitter) k v; mret (withFlags emitter f)) = Ok e' →
  consistent e'.
Proof.
  intros Hv [Hc Hr Hf] Hset.
  destruct (assign (flags emitter) k v) as [f|] eqn:Ha; [|done].
  apply assign_Ok in Ha as (g & Hg & ->). injection Hset as <-.
  split; simpl; [done|done|]. intros g' k' [= <-].
  destruct (decide (k = k')) as [<-|Hne].
  - rewrite lookup_insert_eq. congruence.
  - rewrite lookup_insert_ne by done. by apply Hf.
Qed.

Lemma In_consistent (room : string) (emitter : Emitter) :
  consistent emitter → consistent (In room emitter).
Proof.
  intros [Hc Hr Hf]. rewrite In_spec. case_decide; [done|].
  split; simpl; [done| |done].
  apply NoDup_app. split_and!; [done| |apply NoDup_singleton].
  intros x Hx ->%list_elem_of_singleton. done.
Qed.

Lemma filter_fresh_snoc (known : list string) (room : string) (l : list string) :
  filter (λ x, x ∉ known ++ [room]) l
  = filter (λ x, x ∉ known) (filter (λ y, y ≠ room) l).
Proof.
  rewrite list_filter_filter. apply list_filter_iff. intros x.
  rewrite elem_of_app, list_elem_of_singleton. tauto.
Qed.

Lemma filter_none_held (l : list string) : filter (λ x, x ∉ []) l = l.
Proof.
  induction l as [|x l IH]; [done|].
  rewrite filter_cons_True by apply not_elem_of_nil. by rewrite IH.
Qed.

Lemma filter_known (known : list string) (room : string) (l : list string) :
  room ∈ known →
  filter (λ x, x ∉ known) (filter (λ y, y ≠ room) l) = filter (λ x, x ∉ known) l.
Proof.
  intros Hroom. rewrite list_filter_filter. apply list_filter_iff. intros x.
  split; [tauto|]. intros Hx. split; [done|]. by intros ->.
Qed.

Section RunFacts.

Variable Encode : value → encoded.
Variable Get : World → pooled.
Variable Do : string → list Byte.byte → option string.

Lemma emit_consistent (emitter : Emitter) (w : World) (g : gmap string value)
    (r : EmitResult) :
  consistent emitter → emit Encode Get Do emitter w (Some g) = Ok r →
  consistent (session r).
Proof.
  intros [Hc Hr Hf] Hemit.
  destruct (emit_cases Encode Get Do emitter w g) as (r' & Hr' & _ & Hcases).
  rewrite Hemit in Hr'. injection Hr' as <-.
  destruct (Encode (pack r)) as [buf|err].
  - destruct Hcases as (-> & _). split; simpl; [done|done|].
    intros g' k [= <-]. by rewrite lookup_empty.
  - destruct Hcases as (-> & _). split; simpl; [done|done|].
    destruct (isNil (index (flags emitter) "nsp")); simpl; [done|].
    destruct (flags emitter) as [g0|]; simpl; [|done].
    intros g' k [= <-]. destruct (decide ("nsp" = k)) as [<-|Hne].
    + by rewrite lookup_delete_eq.
    + rewrite lookup_delete_ne by done. by apply Hf.
Qed.

Lemma emit_rooms (emitter : Emitter) (w : World) (g : gmap string value)
    (r : EmitResult) :
  emit Encode Get Do emitter w (Some g) = Ok r → rooms (session r) = rooms emitter.
Proof.
  intros Hemit.
  destruct (emit_cases Encode Get Do emitter w g) as (r' & Hr' & _ & Hcases).
  rewrite Hemit in Hr'. injection Hr' as <-.
  destruct (Encode (pack r)); by destruct Hcases as (-> & _).
Qed.

Lemma run_cons (c : call) (cs : list call) (st : Emitter * World) :
  run Encode Get Do (c :: cs) st = step Encode Get Do c st ≫= run Encode Get Do cs.
Proof. done. Qed.

Lemma step_consistent (c : call) (emitter e' : Emitter) (w w' : World) :
  consistent emitter → step Encode Get Do c (emitter, w) = Ok (e', w') →
  consistent e'.
Proof.
  intros Hcons. destruct c; simpl.
  1-3, 6: match goal with
     | |- context [Join] => unfold Join
     | |- context [Volatile] => unfold Volatile
     | |- context [Broadcast] => unfold Broadcast
     | |- context [Of] => unfold Of
     end;
     match goal with
     | |- context [assign ?f ?k ?v] =>
         destruct (f' ← assign f k v; mret (withFlags emitter f')) as [e1|] eqn:He1
     end; simpl; intros [= <- <-] || done;
     by eapply setter_consistent in He1.
  - intros [= <- <-]. by apply In_consistent.
  - intros [= <- <-]. by apply In_consistent.
  - unfold Emit.
    match goal with
    | |- context [emit _ _ _ _ _ (Some ?g)] =>
        destruct (emit Encode Get Do emitter w (Some g)) as [r|] eqn:Hr
    end; simpl; [|done].
    intros [= <- <-]. by eapply emit_consistent.
  - unfold EmitBinary.
    match goal with
    | |- context [emit _ _ _ _ _ (Some ?g)] =>
        destruct (emit Encode Get Do emitter w (Some g)) as [r|] eqn:Hr
    end; simpl; [|done].
    intros [= <- <-]. by eapply emit_consistent.
Qed.

Lemma run_consistent (cs : list call) (emitter e' : Emitter) (w w' : World) :
  consistent emitter → run Encode Get Do cs (emitter, w) = Ok (e', w') →
  consistent e'.
Proof.
  revert emitter w. induction cs as [|c cs IH]; intros emitter w Hcons.
  - by intros [= <- <-].
  - rewrite run_cons.
    destruct (step Encode Get Do c (emitter, w)) as [[e1 w1]|] eqn:Hstep; [|done].
    intros Hrun. eapply IH; [|done]. by eapply step_consistent.
Qed.

(** Only [In] and [To] touch the rooms. *)
Lemma step_rooms (c : call) (emitter e' : Emitter) (w w' : World) :
  step Encode Get Do c (emitter, w) = Ok (e', w') →
  rooms e' = match c with
             | CIn room | CTo room => rooms (In room emitter)
             | _ => rooms emitter
             end.
Proof.
  destruct c; simpl.
  1-3, 6: match goal with
     | |- context [Join] => unfold Join
     | |- context [Volatile] => unfold Volatile
     | |- context [Broadcast] => unfold Broadcast
     | |- context [Of] => unfold Of
     end;
     match goal with
     | |- context [assign ?f ?k ?v] => destruct (assign f k v) as [f'|]
     end; simpl; by intros [= <- <-] || done.
  - by intros [= <- <-].
  - by intros [= <- <-].
  - unfold Emit.
    match goal with
    | |- context [emit _ _ _ _ _ (Some ?g)] =>
        destruct (emit Encode Get Do emitter w (Some g)) as [r|] eqn:Hr
    end; simpl; [|done].
    intros [= <- <-]. by eapply emit_rooms.
  - unfold EmitBinary.
    match goal with
    | |- context [emit _ _ _ _ _ (Some ?g)] =>
        destruct (emit Encode Get Do emitter w (Some g)) as [r|] eqn:Hr
    end; simpl; [|done].
    intros [= <- <-]. by eapply emit_rooms.
Qed.

(** The rooms after a run: those held before, then the rooms asked for that
    were not yet held, each at its first request. *)
Lemma run_rooms (cs : list call) (emitter e' : Emitter) (w w' : World) :
  run Encode Get Do cs (emitter, w) = Ok (e', w') →
  rooms e' = rooms emitter
             ++ filter (λ x, x ∉ rooms emitter) (firstOccurrences (roomsAsked cs)).
Proof.
  revert emitter w. induction cs as [|c cs IH]; intros emitter w.
  - intros [= <- <-]. simpl. by rewrite app_nil_r.
  - rewrite run_cons.
    destruct (step Encode Get Do c (emitter, w)) as [[e1 w1]|] eqn:Hstep; [|done].
    intros Hrun. rewrite (IH _ _ Hrun). apply step_rooms in Hstep.
    assert (∀ room, rooms (In room emitter)
              ++ filter (λ x, x ∉ rooms (In room emitter))
                   (firstOccurrences (roomsAsked cs))
            = rooms emitter
              ++ filter (λ x, x ∉ rooms emitter)
                   (room :: filter (λ y, y ≠ room)
                              (firstOccurrences (roomsAsked cs)))) as Hin.
    { intros room. rewrite In_spec. case_decide as Hroom.
      - rewrite filter_cons_False by tauto. by rewrite filter_known.
      - simpl. rewrite filter_cons_True by done.
        by rewrite filter_fresh_snoc, <-app_assoc. }
    destruct c; rewrite Hstep; simpl; try done; apply Hin.
Qed.

End RunFacts.

(** ** Emission from a session built by the constructor *)

Section ConsistentFacts.

Variable Encode : value → encoded.
Variable Get : World → pooled.
Variable Do : string → list Byte.byte → option string.

Lemma emitBy_emit (binary : bool) (emitter : Emitter) (w : World)
    (event : string) (data : list value) :
  emitBy Encode Get Do binary emitter w event data
  = emit Encode Get Do emitter w (Some (packetBy binary event data)).
Proof. by destruct binary. Qed.

(** All that [Emit] and [EmitBinary] do on a consistent session. *)
Lemma emitBy_cases (binary : bool) (emitter : Emitter) (w : World)
    (event : string) (data : list value) :
  consistent emitter →
  ∃ r, emitBy Encode Get Do binary emitter w event data = Ok r ∧
    let packet := match flags emitter ≫= lookup "nsp" with
                  | Some v => <["nsp" := v]> (packetBy binary event data)
                  | None => packetBy binary event data
                  end in
    let channel := match rooms emitter with
                   | [room] => broadcastChannel (opts emitter) +:+ room +:+ "#"
                   | _ => broadcastChannel (opts emitter)
                   end in
    pack r = mkPack (rooms emitter) (remove (flags emitter) "nsp") (Some packet) ∧
    match Encode (pack r) with
    | EncodeError err =>
        session r = withFlags emitter (remove (flags emitter) "nsp") ∧
        error r = Some err ∧ world r = w
    | Encoded buf =>
        session r = withFlags emitter make ∧ error r = None ∧
        world r = publish Get Do w channel buf
    end.
Proof.
  intros [_ _ Hf]. rewrite emitBy_emit.
  destruct (emit_cases Encode Get Do emitter w (packetBy binary event data))
    as (r & Hr & Hpack & Hcases).
  exists r. split; [done|]. revert Hpack Hcases.
  destruct (isNil (index (flags emitter) "nsp")) eqn:Hnil; simpl.
  - assert (flags emitter ≫= lookup "nsp" = None) as Hnone
      by (apply index_nil_lookup; [intros g Hg; by apply Hf|done]).
    rewrite Hnone, (remove_absent _ _ Hnone). done.
  - rewrite (index_lookup _ _ Hnil). done.
Qed.

(** The session of a run from the constructor is consistent. *)
Lemma run_NewEmitter_consistent (o : EmitterOpts) (cs : list call)
    (emitter : Emitter) (w : World) :
  run Encode Get Do cs (NewEmitter o, quiet) = Ok (emitter, w) → consistent emitter.
Proof. apply run_consistent, NewEmitter_consistent. Qed.

End ConsistentFacts.

Lemma Ok_inj {A} (a b : A) : Ok a = Ok b → a = b.
Proof. by intros [= ->]. Qed.

(** ** Strings *)

Lemma prefix_append (s t : string) : String.prefix s (s +:+ t) = true.
Proof.
  induction s as [|a s IH]; simpl; [by destruct t|].
  destruct (Ascii.ascii_dec a a); [done|congruence].
Qed.

Lemma prefix_refl (s : string) : String.prefix s s = true.
Proof.
  induction s as [|a s IH]; simpl; [done|].
  destruct (Ascii.ascii_dec a a); [done|congruence].
Qed.

Lemma append_cons (a : Ascii.ascii) (s t : string) :
  String a s +:+ t = String a (s +:+ t).
Proof. done. Qed.

Lemma append_assoc (s t u : string) : (s +:+ t) +:+ u = s +:+ t +:+ u.
Proof. induction s as [|a s IH]; [done|]. by rewrite !append_cons, IH. Qed.

(** ** Where a consistent session publishes *)

Lemma publish_wire (Get : World → pooled)
    (Do : string → list Byte.byte → option string) (w : World)
    (channel : string) (buf : list Byte.byte) :
  wire (publish Get Do w channel buf) = wire w ++ [(channel, buf)].
Proof.
  unfold publish, poolGet. destruct (Get w) as [|[err|]|err]; simpl; try done.
  by destruct (Do channel buf).
  by destruct (Do channel buf).
Qed.



(** ** The statements of the specification *)

(** C1 (code defect).  Classification is not a full characterization: with
    the event arguments ["x"] and then a [[]byte], a raw byte sequence is
    present, yet [HasBinary] returns false at the scalar that stands first
    and the packet of [Emit] has type EVENT (2) instead of BINARY_EVENT (5). *)
Theorem HasBinary_misses_bytes_after_scalar :
  existsb containsBinary [VString "x"; VBytes [Byte.x01]] = true ∧
  HasBinary [VString "x"; VBytes [Byte.x01]] = false ∧
  EmitPacket "msg" [VString "x"; VBytes [Byte.x01]]
  = <["data" := VSlice [VString "msg"; VString "x"; VBytes [Byte.x01]]]>
      {["type" := VInt 2]}.
Proof. split_and!; reflexivity. Qed.




(** C3 (code defect).  On the session the constructor returns, whatever the
    options, each of the four flag setters panics: the flags map was never
    made, and assigning to an entry of the nil map panics.  Nothing is
    recorded and nothing is returned. *)
Theorem flag_setters_panic_on_new_session (o : EmitterOpts) (namespace : string) :
  flags (NewEmitter o) = None ∧
  Join (NewEmitter o) = Panic "assignment to entry in nil map" ∧
  Volatile (NewEmitter o) = Panic "assignment to entry in nil map" ∧
  Broadcast (NewEmitter o) = Panic "assignment to entry in nil map" ∧
  Of namespace (NewEmitter o) = Panic "assignment to entry in nil map".
Proof. by split_and!. Qed.

(** Once the flags map is made, as a successful emission does, the setters
    record their entry and return the session. *)
Lemma flag_setters_on_made_map (emitter : Emitter) (g : gmap string value)
    (namespace : string) :
  flags emitter = Some g →
  Join emitter = Ok (withFlags emitter (Some (<["join" := VBool true]> g))) ∧
  Volatile emitter = Ok (withFlags emitter (Some (<["volatile" := VBool true]> g))) ∧
  Broadcast emitter = Ok (withFlags emitter (Some (<["broadcast" := VBool true]> g))) ∧
  Of namespace emitter = Ok (withFlags emitter (Some (<["nsp" := VString namespace]> g))).
Proof.
  intros Hg. unfold Join, Volatile, Broadcast, Of. rewrite Hg. by split_and!.
Qed.

(** All that [Emit] and [EmitBinary] do on any session, read off the result
    of the encoder. *)
Lemma emitBy_outcome (Encode : value → encoded)
    (Get : World → pooled)
    (Do : string → list Byte.byte → option string)
    (binary : bool) (emitter : Emitter) (w : World)
    (event : string) (data : list value) :
  ∃ r, emitBy Encode Get Do binary emitter w event data = Ok r ∧
    match Encode (pack r) with
    | EncodeError err =>
        session r
        = withFlags emitter
            (if isNil (index (flags emitter) "nsp") then flags emitter
             else remove (flags emitter) "nsp") ∧
        error r = Some err ∧ world r = w
    | Encoded buf =>
        session r = withFlags emitter make ∧ error r = None ∧
        world r
        = publish Get Do w
            match rooms emitter with
            | [room] => broadcastChannel (opts emitter) +:+ room +:+ "#"
            | _ => broadcastChannel (opts emitter)
            end buf
    end.
Proof.
  rewrite emitBy_emit.
  destruct (emit_cases Encode Get Do emitter w (packetBy binary event data))
    as (r & Hr & _ & Hcases).
  exists r. split; [done|].
  destruct (Encode (pack r)); [done|].
  by destruct (isNil (index (flags emitter) "nsp")).
Qed.

(** C4 (counterexample).  A session that emitted once and was then given
    the namespace "/chat" emits a func value, which the encoder refuses:
    the error is returned, but the flags, which held the entry nsp before
    the call, are empty after it. *)
Lemma failed_emit_drops_pending_namespace :
  (st ← run sampleEncode poolUp connUp [CEmit "init" []; COf "/chat"] (NewEmitter noOpts, quiet);
   r ← Emit sampleEncode poolUp connUp st.1 st.2 "news" [VFunc];
   mret (error r, flags st.1, flags (session r)))
  = Ok (Some "msgpack: Encode(unsupported func())",
        Some {["nsp" := VString "/chat"]},
        Some ∅).
Proof. vm_compute. reflexivity. Qed.

(** C4 (amended).  When the encoder refuses the envelope, the error is
    returned, nothing is published and nothing is written to standard
    error, the key, the channels and the rooms are as before, and the flags
    are not cleared: every entry other than nsp is kept.  A pending
    namespace is no longer there: it was moved into the packet before the
    encoder ran. *)
Theorem failed_emit_keeps_all_but_namespace
    (Encode : value → encoded) (Get : World → pooled)
    (Do : string → list Byte.byte → option string)
    (binary : bool) (e : Emitter) (w : World)
    (event : string) (data : list value) (r : EmitResult) (err : string) :
  emitBy Encode Get Do binary e w event data = Ok r →
  Encode (pack r) = EncodeError err →
  error r = Some err ∧
  world r = w ∧
  Key (session r) = Key e ∧ opts (session r) = opts e ∧
  rooms (session r) = rooms e ∧
  (∀ k, k ≠ "nsp" → flags (session r) ≫= lookup k = flags e ≫= lookup k) ∧
  index (flags (session r)) "nsp" = VNil ∧
  (flags (session r) = None ↔ flags e = None).
Proof.
  intros Hr Henc.
  destruct (emitBy_outcome Encode Get Do binary e w event data) as (r' & Hr' & Hcases).
  rewrite Hr in Hr'. injection Hr' as <-. rewrite Henc in Hcases.
  destruct Hcases as (-> & -> & ->). simpl. split_and!; try done.
  - intros k Hk. destruct (isNil (index (flags e) "nsp")); [done|].
    by apply remove_lookup_ne.
  - destruct (isNil (index (flags e) "nsp")) eqn:Hnil.
    + by destruct (index (flags e) "nsp").
    + destruct (flags e) as [g|]; [|done]. simpl. by rewrite lookup_delete_eq.
  - destruct (isNil (index (flags e) "nsp")); [done|].
    by destruct (flags e).
Qed.

(** [chatSession] emits a func value: the encoder refuses it and the flag
    join is still there. *)
Lemma failed_emit_keeps_all_but_namespace_witness :
  emitBy sampleEncode poolUp connUp false chatSession quiet "news" [VFunc]
  = Ok (sessionResult (Emit sampleEncode poolUp connUp chatSession quiet "news" [VFunc])) ∧
  sampleEncode (pack (sessionResult (Emit sampleEncode poolUp connUp chatSession quiet "news" [VFunc])))
  = EncodeError "msgpack: Encode(unsupported func())" ∧
  error (sessionResult (Emit sampleEncode poolUp connUp chatSession quiet "news" [VFunc]))
  = Some "msgpack: Encode(unsupported func())" ∧
  flags (session (sessionResult (Emit sampleEncode poolUp connUp chatSession quiet "news" [VFunc])))
  ≫= lookup "join" = Some (VBool true).
Proof.
  assert (emitBy sampleEncode poolUp connUp false chatSession quiet "news" [VFunc]
          = Ok (sessionResult (Emit sampleEncode poolUp connUp chatSession quiet "news" [VFunc])))
    as Hr by (vm_compute; reflexivity).
  assert (sampleEncode
            (pack (sessionResult (Emit sampleEncode poolUp connUp chatSession quiet "news" [VFunc])))
          = EncodeError "msgpack: Encode(unsupported func())")
    as Henc by (vm_compute; reflexivity).
  destruct (failed_emit_keeps_all_but_namespace sampleEncode poolUp connUp false
              chatSession quiet "news" [VFunc] _ _ Hr Henc)
    as (Herr & _ & _ & _ & _ & Hkeep & _).
  split_and!; [exact Hr|exact Henc|exact Herr|].
  rewrite (Hkeep "join") by done. vm_compute. reflexivity.
Defined.

(** C5.  On every session reached from the constructor, [Emit] and
    [EmitBinary] hand the encoder the three-element sequence
    [["emitter", packet, options]]: the packet has type 2 or 5, its data is
    the event name followed by the arguments, it has the key nsp exactly
    when the flags had it, with the same value, and no other key; the
    options are the rooms and the flags without the entry nsp, every other
    flag being kept.  The bytes handed to PUBLISH are the encoding of this
    envelope. *)
Theorem envelope_shape
    (Encode : value → encoded) (Get : World → pooled)
    (Do : string → list Byte.byte → option string)
    (o : EmitterOpts) (cs : list call) (e : Emitter) (w : World)
    (binary : bool) (event : string) (data : list value) :
  run Encode Get Do cs (NewEmitter o, quiet) = Ok (e, w) →
  ∃ r packet,
    emitBy Encode Get Do binary e w event data = Ok r ∧
    pack r = VSlice [VString "emitter";
                     VMap (Some packet);
                     VMap (Some (<["flags" := VMap (remove (flags e) "nsp")]>
                                   {["rooms" := VStrings (rooms e)]}))] ∧
    (packet !! "type" = Some (VInt 2) ∨ packet !! "type" = Some (VInt 5)) ∧
    packet !! "data" = Some (VSlice (VString event :: data)) ∧
    packet !! "nsp" = flags e ≫= lookup "nsp" ∧
    dom packet ⊆ ({["type"; "data"; "nsp"]} : gset string) ∧
    remove (flags e) "nsp" ≫= lookup "nsp" = None ∧
    (∀ k, k ≠ "nsp" → remove (flags e) "nsp" ≫= lookup k = flags e ≫= lookup k) ∧
    match Encode (pack r) with
    | Encoded buf => ∃ channel, wire (world r) = wire w ++ [(channel, buf)]
    | EncodeError _ => world r = w
    end.
Proof.
  intros Hrun. apply run_NewEmitter_consistent in Hrun as Hcons.
  destruct (emitBy_cases Encode Get Do binary e w event data Hcons)
    as (r & Hr & Hpack & Hcases).
  simpl in Hpack. eexists r, _. split_and!; [done|exact Hpack|..].
  - destruct (flags e ≫= lookup "nsp"), binary; unfold packetBy, EmitPacket;
      simpl; try destruct (HasBinary data); auto.
  - by destruct (flags e ≫= lookup "nsp"), binary.
  - destruct (flags e ≫= lookup "nsp"); [apply lookup_insert_eq|by destruct binary].
  - destruct (flags e ≫= lookup "nsp"), binary;
      unfold packetBy, EmitPacket, EmitBinaryPacket;
      rewrite ?dom_insert_L, dom_singleton_L; intros k; set_unfold; tauto.
  - apply remove_lookup.
  - intros k Hk. by apply remove_lookup_ne.
  - destruct (Encode (pack r)) as [buf|err].
    + destruct Hcases as (_ & _ & ->). rewrite publish_wire. eauto.
    + by destruct Hcases as (_ & _ & ->).
Qed.

(** The envelope of "chat", "hello" after [sampleCalls]. *)
Lemma envelope_shape_witness :
  run sampleEncode poolUp connUp sampleCalls (NewEmitter noOpts, quiet)
  = Ok (sessionAfter sampleRun, worldAfter sampleRun) ∧
  flags (sessionAfter sampleRun)
  = Some (<["broadcast" := VBool true]> {["nsp" := VString "/chat"]}) ∧
  ∃ r packet,
    emitBy sampleEncode poolUp connUp false (sessionAfter sampleRun) (worldAfter sampleRun)
      "chat" [VString "hello"] = Ok r ∧
    pack r = VSlice [VString "emitter";
                     VMap (Some packet);
                     VMap (Some (<["flags" := VMap (Some {["broadcast" := VBool true]})]>
                                   {["rooms" := VStrings ["room1"]]}))] ∧
    packet !! "data" = Some (VSlice [VString "chat"; VString "hello"]) ∧
    packet !! "nsp" = Some (VString "/chat").
Proof.
  assert (run sampleEncode poolUp connUp sampleCalls (NewEmitter noOpts, quiet)
          = Ok (sessionAfter sampleRun, worldAfter sampleRun)) as Hrun
    by (vm_compute; reflexivity).
  assert (flags (sessionAfter sampleRun)
          = Some (<["broadcast" := VBool true]> {["nsp" := VString "/chat"]})) as Hflags
    by (vm_compute; reflexivity).
  split_and!; [exact Hrun|exact Hflags|].
  destruct (envelope_shape sampleEncode poolUp connUp noOpts sampleCalls _ _
              false "chat" [VString "hello"] Hrun)
    as (r & packet & Hr & Hpack & _ & Hdata & Hnsp & _).
  exists r, packet. split_and!; [exact Hr| |exact Hdata|].
  - rewrite Hpack. vm_compute. reflexivity.
  - rewrite Hnsp. vm_compute. reflexivity.
Defined.

(** C6.  On a session of key "socket.io" reached from the constructor, an
    emission whose envelope is encoded hands the bytes to PUBLISH once: on
    "socket.io#/#" when the session holds no room, on "socket.io#/#lobby#"
    when it holds the one room "lobby", and on "socket.io#/#" when it holds
    the two rooms "a" and "b"; the options of the envelope always carry the
    rooms held. *)
Theorem channel_names_socket_io
    (Encode : value → encoded) (Get : World → pooled)
    (Do : string → list Byte.byte → option string)
    (o : EmitterOpts) (cs : list call) (e : Emitter) (w : World)
    (binary : bool) (event : string) (data : list value) :
  run Encode Get Do cs (NewEmitter o, quiet) = Ok (e, w) →
  Key e = "socket.io" →
  ∃ r, emitBy Encode Get Do binary e w event data = Ok r ∧
    optionsOf (pack r) ≫= lookup "rooms" = Some (VStrings (rooms e)) ∧
    ∀ buf, Encode (pack r) = Encoded buf →
      ∃ channel,
        wire (world r) = wire w ++ [(channel, buf)] ∧
        (rooms e = [] → channel = "socket.io#/#") ∧
        (rooms e = ["lobby"] → channel = "socket.io#/#lobby#") ∧
        (rooms e = ["a"; "b"] → channel = "socket.io#/#").
Proof.
  intros Hrun HKey. apply run_NewEmitter_consistent in Hrun as Hcons.
  destruct (emitBy_cases Encode Get Do binary e w event data Hcons)
    as (r & Hr & Hpack & Hcases).
  exists r. split_and!; [done| |].
  - rewrite Hpack. simpl. by rewrite lookup_insert_ne, lookup_singleton_eq.
  - intros buf Henc. rewrite Henc in Hcases. destruct Hcases as (_ & _ & ->).
    rewrite publish_wire, (consistent_channel _ Hcons), HKey.
    eexists. split; [done|].
    split_and!; by intros ->.
Qed.

(** The three sessions of the default key: no room, the room "lobby", the
    rooms "a" and "b". *)
Lemma channel_names_socket_io_witness :
  (∃ r, emitBy sampleEncode poolUp connUp false (NewEmitter noOpts) quiet "news" [] = Ok r ∧
        channels (world r) = ["socket.io#/#"]) ∧
  (∃ r, emitBy sampleEncode poolUp connUp false (In "lobby" (NewEmitter noOpts)) quiet "news" []
        = Ok r ∧
        channels (world r) = ["socket.io#/#lobby#"]) ∧
  (∃ r, emitBy sampleEncode poolUp connUp false (To "b" (In "a" (NewEmitter noOpts))) quiet "news" []
        = Ok r ∧
        channels (world r) = ["socket.io#/#"] ∧
        optionsOf (pack r) ≫= lookup "rooms" = Some (VStrings ["a"; "b"])).
Proof.
  split_and!.
  - destruct (channel_names_socket_io sampleEncode poolUp connUp noOpts []
                (NewEmitter noOpts) quiet false "news" [] eq_refl eq_refl)
      as (r & Hr & _ & Hpub).
    exists r. split; [exact Hr|].
    destruct (Hpub (bytesOf (sampleEncode (pack r)))) as (channel & Hwire & Hnone & _).
    { apply Ok_inj in Hr. rewrite <-Hr. vm_compute. reflexivity. }
    unfold channels. rewrite Hwire, (Hnone eq_refl). reflexivity.
  - destruct (channel_names_socket_io sampleEncode poolUp connUp noOpts [CIn "lobby"]
                (In "lobby" (NewEmitter noOpts)) quiet false "news" [] eq_refl eq_refl)
      as (r & Hr & _ & Hpub).
    exists r. split; [exact Hr|].
    destruct (Hpub (bytesOf (sampleEncode (pack r)))) as (channel & Hwire & _ & Hone & _).
    { apply Ok_inj in Hr. rewrite <-Hr. vm_compute. reflexivity. }
    unfold channels. rewrite Hwire, (Hone eq_refl). reflexivity.
  - destruct (channel_names_socket_io sampleEncode poolUp connUp noOpts [CIn "a"; CTo "b"]
                (To "b" (In "a" (NewEmitter noOpts))) quiet false "news" [] eq_refl eq_refl)
      as (r & Hr & Hrooms & Hpub).
    exists r. split_and!; [exact Hr| |exact Hrooms].
    destruct (Hpub (bytesOf (sampleEncode (pack r)))) as (channel & Hwire & _ & _ & Htwo).
    { apply Ok_inj in Hr. rewrite <-Hr. vm_compute. reflexivity. }
    unfold channels. rewrite Hwire, (Htwo eq_refl). reflexivity.
Defined.

(** C7.  After an emission that returns no error the flags are the empty
    map and the rooms, like the key and the channels, are what they were
    before the call. *)
Theorem successful_emit_clears_flags_keeps_rooms
    (Encode : value → encoded) (Get : World → pooled)
    (Do : string → list Byte.byte → option string)
    (binary : bool) (e : Emitter) (w : World)
    (event : string) (data : list value) (r : EmitResult) :
  emitBy Encode Get Do binary e w event data = Ok r →
  error r = None →
  flags (session r) = Some ∅ ∧
  rooms (session r) = rooms e ∧
  session r = withFlags e (Some ∅).
Proof.
  intros Hr Herr.
  destruct (emitBy_outcome Encode Get Do binary e w event data) as (r' & Hr' & Hcases).
  rewrite Hr in Hr'. injection Hr' as <-.
  destruct (Encode (pack r)).
  - by destruct Hcases as (-> & _).
  - destruct Hcases as (_ & Hsome & _). congruence.
Qed.

(** After [sampleCalls] the flags hold two entries; the emission of "chat"
    leaves none and keeps the room. *)
Lemma successful_emit_clears_flags_keeps_rooms_witness :
  emitBy sampleEncode poolUp connUp false (sessionAfter sampleRun) (worldAfter sampleRun)
    "chat" [VString "hello"]
  = Ok (sessionResult
          (Emit sampleEncode poolUp connUp (sessionAfter sampleRun) (worldAfter sampleRun)
             "chat" [VString "hello"])) ∧
  flags (sessionAfter sampleRun)
  = Some (<["broadcast" := VBool true]> {["nsp" := VString "/chat"]}) ∧
  flags (session (sessionResult
          (Emit sampleEncode poolUp connUp (sessionAfter sampleRun) (worldAfter sampleRun)
             "chat" [VString "hello"]))) = Some ∅ ∧
  rooms (session (sessionResult
          (Emit sampleEncode poolUp connUp (sessionAfter sampleRun) (worldAfter sampleRun)
             "chat" [VString "hello"]))) = ["room1"].
Proof.
  assert (emitBy sampleEncode poolUp connUp false (sessionAfter sampleRun) (worldAfter sampleRun)
            "chat" [VString "hello"]
          = Ok (sessionResult
                  (Emit sampleEncode poolUp connUp (sessionAfter sampleRun) (worldAfter sampleRun)
                     "chat" [VString "hello"]))) as Hr
    by (vm_compute; reflexivity).
  destruct (successful_emit_clears_flags_keeps_rooms sampleEncode poolUp connUp false
              _ _ _ _ _ Hr) as (Hflags & Hrooms & _).
  { vm_compute. reflexivity. }
  split_and!; [exact Hr|vm_compute; reflexivity|exact Hflags|].
  rewrite Hrooms. vm_compute. reflexivity.
Defined.

(** C8.  [In], and [To] with it, leaves alone a session that already holds
    the room, so a second call with the same name changes nothing; and the
    rooms of a session reached from the constructor by any calls hold no
    name twice and are the names asked for, each where it was first asked
    for. *)
Theorem rooms_idempotent_in_first_insertion_order :
  (∀ (e : Emitter) (room : string),
     room ∈ rooms e → In room e = e ∧ To room e = e) ∧
  (∀ (e : Emitter) (room : string),
     In room (In room e) = In room e ∧ To room (To room e) = To room e) ∧
  (∀ (Encode : value → encoded) (Get : World → pooled)
     (Do : string → list Byte.byte → option string)
     (o : EmitterOpts) (cs : list call) (e : Emitter) (w : World),
     run Encode Get Do cs (NewEmitter o, quiet) = Ok (e, w) →
     NoDup (rooms e) ∧ rooms e = firstOccurrences (roomsAsked cs)).
Proof.
  assert (∀ (e : Emitter) (room : string), room ∈ rooms e → In room e = e) as Hheld.
  { intros e room Hroom. rewrite In_spec. by rewrite decide_True. }
  assert (∀ (e : Emitter) (room : string), room ∈ rooms (In room e)) as Hin.
  { intros e room. rewrite In_spec. case_decide; [done|]. simpl.
    apply elem_of_app. right. by apply list_elem_of_singleton. }
  split_and!.
  - intros e room Hroom. unfold To. by rewrite Hheld.
  - intros e room. unfold To. by rewrite Hheld.
  - intros Encode Get Do o cs e w Hrun. split.
    + by apply (consistent_rooms _ (run_NewEmitter_consistent _ _ _ _ _ _ _ Hrun)).
    + rewrite (run_rooms _ _ _ _ _ _ _ _ Hrun). simpl.
      apply filter_none_held.
Qed.

(** A run that asks for "a", "b", "a", "c", "b" around an emission and a
    flag. *)
Lemma rooms_idempotent_in_first_insertion_order_witness :
  "room1" ∈ rooms (sessionAfter sampleRun) ∧
  In "room1" (sessionAfter sampleRun) = sessionAfter sampleRun ∧
  run sampleEncode poolUp connUp
    [CIn "a"; CTo "b"; CIn "a"; CEmit "init" []; CJoin; CIn "c"; CTo "b"]
    (NewEmitter noOpts, quiet)
  = Ok (sessionAfter
          (run sampleEncode poolUp connUp
             [CIn "a"; CTo "b"; CIn "a"; CEmit "init" []; CJoin; CIn "c"; CTo "b"]
             (NewEmitter noOpts, quiet)),
        worldAfter
          (run sampleEncode poolUp connUp
             [CIn "a"; CTo "b"; CIn "a"; CEmit "init" []; CJoin; CIn "c"; CTo "b"]
             (NewEmitter noOpts, quiet))) ∧
  rooms (sessionAfter
           (run sampleEncode poolUp connUp
              [CIn "a"; CTo "b"; CIn "a"; CEmit "init" []; CJoin; CIn "c"; CTo "b"]
              (NewEmitter noOpts, quiet)))
  = ["a"; "b"; "c"].
Proof.
  destruct rooms_idempotent_in_first_insertion_order as (Hheld & _ & Hrun).
  assert ("room1" ∈ rooms (sessionAfter sampleRun)) as Hroom
    by (vm_compute; apply list_elem_of_here).
  assert (run sampleEncode poolUp connUp
            [CIn "a"; CTo "b"; CIn "a"; CEmit "init" []; CJoin; CIn "c"; CTo "b"]
            (NewEmitter noOpts, quiet)
          = Ok (sessionAfter
                  (run sampleEncode poolUp connUp
                     [CIn "a"; CTo "b"; CIn "a"; CEmit "init" []; CJoin; CIn "c"; CTo "b"]
                     (NewEmitter noOpts, quiet)),
                worldAfter
                  (run sampleEncode poolUp connUp
                     [CIn "a"; CTo "b"; CIn "a"; CEmit "init" []; CJoin; CIn "c"; CTo "b"]
                     (NewEmitter noOpts, quiet)))) as Hcalls
    by (vm_compute; reflexivity).
  split_and!; [exact Hroom|exact (proj1 (Hheld _ _ Hroom))|exact Hcalls|].
  rewrite (proj2 (Hrun _ _ _ _ _ _ _ Hcalls)). vm_compute. reflexivity.
Defined.

(** C9.  When the encoder accepts the envelope, the emission returns no
    error and leaves the session with empty flags, whatever the pool and
    the connection do: PUBLISH is handed to the connection once, a failure
    is only written to standard error (the error printed by [publish], after
    the entry logged by [Dial] when the pool could not dial), and with any
    other pool and connection the same call returns no error either and
    leaves the same session. *)
Theorem publish_failure_not_propagated
    (Encode : value → encoded) (Get : World → pooled)
    (Do : string → list Byte.byte → option string)
    (binary : bool) (e : Emitter) (w : World)
    (event : string) (data : list value) (r : EmitResult) (buf : list Byte.byte) :
  emitBy Encode Get Do binary e w event data = Ok r →
  Encode (pack r) = Encoded buf →
  error r = None ∧
  session r = withFlags e (Some ∅) ∧
  (∃ channel,
     wire (world r) = wire w ++ [(channel, buf)] ∧
     stderr (world r)
     = stderr w ++ match Get w with
                   | Idle | Dialled None =>
                       match Do channel buf with
                       | Some msg => [Printed ("ERROR: " +:+ msg)]
                       | None => []
                       end
                   | Dialled (Some msg) =>
                       [Logged ("Failed to init redis pool: " +:+ msg);
                        Printed ("ERROR: " +:+ msg)]
                   | NoConnection msg => [Printed ("ERROR: " +:+ msg)]
                   end ∧
     sentLive (world r)
     = sentLive w ++ if givesLive (Get w) then [(channel, buf)] else []) ∧
  (∀ (Get' : World → pooled) (Do' : string → list Byte.byte → option string),
     ∃ r', emitBy Encode Get' Do' binary e w event data = Ok r' ∧
       error r' = None ∧ session r' = session r).
Proof.
  intros Hr Henc. rewrite emitBy_emit in Hr.
  destruct (emit_cases Encode Get Do e w (packetBy binary event data))
    as (r0 & Hr0 & Hpack & Hcases).
  rewrite Hr in Hr0. injection Hr0 as <-. rewrite Henc in Hcases.
  destruct Hcases as (Hs & He & Hw). split_and!; [done|done| |].
  - rewrite Hw.
    match goal with
    | |- context [publish Get Do w ?c buf] => exists c; generalize c
    end.
    intros channel. unfold publish, poolGet.
    destruct (Get w) as [|[msg|]|msg]; simpl;
      try (destruct (Do channel buf)); simpl;
      rewrite <-?app_assoc, ?app_nil_r; done.
  - intros Get' Do'. rewrite emitBy_emit.
    destruct (emit_cases Encode Get' Do' e w (packetBy binary event data))
      as (r' & Hr' & Hpack' & Hcases').
    exists r'. split; [done|]. rewrite Hpack', <-Hpack, Henc in Hcases'.
    destruct Hcases' as (-> & -> & _). by rewrite Hs.
Qed.

(** An emission after [sampleCalls] on a pool that has to dial and is
    refused: no error, empty flags, two writes to standard error, nothing
    sent. *)
Lemma publish_failure_not_propagated_witness :
  emitBy sampleEncode poolDown connUp false (sessionAfter sampleRun) quiet
    "chat" [VString "hello"]
  = Ok (sessionResult
          (Emit sampleEncode poolDown connUp (sessionAfter sampleRun) quiet
             "chat" [VString "hello"])) ∧
  error (sessionResult
          (Emit sampleEncode poolDown connUp (sessionAfter sampleRun) quiet
             "chat" [VString "hello"]))
  = None ∧
  flags (session (sessionResult
          (Emit sampleEncode poolDown connUp (sessionAfter sampleRun) quiet
             "chat" [VString "hello"])))
  = Some ∅ ∧
  stderr (world (sessionResult
          (Emit sampleEncode poolDown connUp (sessionAfter sampleRun) quiet
             "chat" [VString "hello"])))
  = [Logged "Failed to init redis pool: dial tcp 127.0.0.1:6379: connect: connection refused";
     Printed "ERROR: dial tcp 127.0.0.1:6379: connect: connection refused"] ∧
  sentLive (world (sessionResult
          (Emit sampleEncode poolDown connUp (sessionAfter sampleRun) quiet
             "chat" [VString "hello"])))
  = [].
Proof.
  assert (emitBy sampleEncode poolDown connUp false (sessionAfter sampleRun) quiet
            "chat" [VString "hello"]
          = Ok (sessionResult
                  (Emit sampleEncode poolDown connUp (sessionAfter sampleRun) quiet
                     "chat" [VString "hello"]))) as Hr
    by (vm_compute; reflexivity).
  destruct (publish_failure_not_propagated sampleEncode poolDown connUp false _ _ _ _ _
              (bytesOf (sampleEncode
                 (pack (sessionResult
                    (Emit sampleEncode poolDown connUp (sessionAfter sampleRun) quiet
                       "chat" [VString "hello"]))))) Hr)
    as (Herr & Hsession & (channel & _ & Hstderr & Hsent) & _).
  { vm_compute. reflexivity. }
  split_and!; [exact Hr|exact Herr|by rewrite Hsession|exact Hstderr|exact Hsent].
Defined.

(** C10.  On the session the constructor returns, before any other call,
    [Emit] and [EmitBinary] do not panic: the nil flags map is only read.
    The envelope has the packet as built, whose data is the event name
    followed by the arguments and which has no key nsp, and has for options
    the rooms, an empty list, and the flags, the nil map, which has no
    entry.  If the encoder accepts the envelope, no error is returned and
    the bytes are handed to PUBLISH on the base channel "{key}#/#", where the key
    is the one given, or "socket.io" if none was. *)
Theorem emit_on_new_session
    (Encode : value → encoded) (Get : World → pooled)
    (Do : string → list Byte.byte → option string)
    (o : EmitterOpts) (w : World)
    (binary : bool) (event : string) (data : list value) :
  ∃ r, emitBy Encode Get Do binary (NewEmitter o) w event data = Ok r ∧
    pack r = VSlice [VString "emitter";
                     VMap (Some (packetBy binary event data));
                     VMap (Some (<["flags" := VMap (flags (NewEmitter o))]>
                                   {["rooms" := VStrings []]}))] ∧
    flags (NewEmitter o) = None ∧ len (flags (NewEmitter o)) = 0%nat ∧
    packetBy binary event data !! "data" = Some (VSlice (VString event :: data)) ∧
    packetBy binary event data !! "nsp" = None ∧
    Key (NewEmitter o) = (if String.eqb (OptsKey o) "" then "socket.io" else OptsKey o) ∧
    match Encode (pack r) with
    | Encoded buf =>
        error r = None ∧
        wire (world r) = wire w ++ [(Key (NewEmitter o) +:+ "#/#", buf)]
    | EncodeError err => error r = Some err ∧ world r = w
    end.
Proof.
  destruct (emitBy_cases Encode Get Do binary (NewEmitter o) w event data
              (NewEmitter_consistent o)) as (r & Hr & Hpack & Hcases).
  exists r. split_and!; try done; try by destruct binary.
  destruct (Encode (pack r)) as [buf|err].
  - destruct Hcases as (_ & -> & ->). by rewrite publish_wire.
  - by destruct Hcases as (_ & -> & ->).
Qed.

(** * Further properties of the code *)

(** ** Binary detection *)

Lemma hasBinaryCase_scalar (v : value) :
  hasBinaryCase v = ReturnFalse ↔ isScalar v = true.
Proof.
  destruct v as [| | | | | | | |l|[g|]]; simpl; try done.
  - by destruct (existsb _ l).
  - by destruct (anyValue _ g).
Qed.

Lemma containsBinary_scalar (v : value) : isScalar v = true → containsBinary v = false.
Proof. by destruct v as [| | | | | | | |l|[g|]]. Qed.

(** X1.  With one argument the detector is exact, so handing the whole
    payload over as one slice makes detection exact whatever the slice
    holds. *)
Theorem HasBinary_one_argument_exact (v : value) (data : list value) :
  HasBinary [v] = containsBinary v ∧
  HasBinary [VSlice data] = existsb containsBinary data.
Proof.
  assert (∀ x, HasBinary [x] = containsBinary x) as Hone.
  { intros x. rewrite <-hasBinaryCase_exact. simpl. by destruct (hasBinaryCase x). }
  split; [apply Hone|]. by rewrite Hone.
Qed.

(** X2.  The detector has no false positives: when it answers true, one of
    the arguments holds a raw byte sequence. *)
Theorem HasBinary_true_has_bytes (data : list value) :
  HasBinary data = true → ∃ d, d ∈ data ∧ containsBinary d = true.
Proof.
  induction data as [|d data IH]; [done|]. simpl.
  destruct (hasBinaryCase d) eqn:Hd; [|done|].
  - intros _. exists d. split; [left|]. by rewrite <-hasBinaryCase_exact, Hd.
  - intros (x & Hx & Hbin)%IH. exists x. split; [by right|done].
Qed.

(** A slice in a map in a slice, with the bytes at the bottom. *)
Lemma HasBinary_true_has_bytes_witness :
  HasBinary [VSlice []; VSlice [VString "x"; VMap (Some {["k" := VBytes [Byte.x01]]})]] = true ∧
  ∃ d, d ∈ [VSlice []; VSlice [VString "x"; VMap (Some {["k" := VBytes [Byte.x01]]})]] ∧
       containsBinary d = true.
Proof.
  assert (HasBinary [VSlice []; VSlice [VString "x"; VMap (Some {["k" := VBytes [Byte.x01]]})]]
          = true) as H by (vm_compute; reflexivity).
  split; [exact H|]. exact (HasBinary_true_has_bytes _ H).
Defined.

(** X3.  What the detector computes: whether a raw byte sequence occurs,
    at any depth, in the arguments that stand before the first scalar
    argument. *)
Theorem HasBinary_scans_until_first_scalar (data : list value) :
  HasBinary data = existsb containsBinary (beforeScalar data).
Proof.
  induction data as [|d data IH]; [done|]. simpl.
  destruct (isScalar d) eqn:Hs.
  - apply hasBinaryCase_scalar in Hs. by rewrite Hs.
  - simpl. rewrite <-hasBinaryCase_exact, <-IH.
    destruct (hasBinaryCase d) eqn:Hd; try done.
    apply hasBinaryCase_scalar in Hd. congruence.
Qed.

(** X4.  Once the arguments so far hold a scalar or have made the detector
    answer true, no further argument changes the answer. *)
Theorem HasBinary_decided_by_prefix (data more : list value) :
  HasBinary data = true ∨ existsb isScalar data = true →
  HasBinary (data ++ more) = HasBinary data.
Proof.
  induction data as [|d data IH]; simpl.
  - by intros [?|?].
  - destruct (hasBinaryCase d) eqn:Hd; try done.
    intros [Htrue|Hscalar]; [by apply IH; left|].
    apply IH. right. destruct (isScalar d) eqn:Hs; [|done].
    apply hasBinaryCase_scalar in Hs. congruence.
Qed.

(** Bytes after a string stay unseen; bytes before it stay seen. *)
Lemma HasBinary_decided_by_prefix_witness :
  HasBinary ([VString "x"] ++ [VBytes [Byte.x01]]) = false ∧
  HasBinary ([VBytes [Byte.x01]] ++ [VString "x"]) = true.
Proof.
  split.
  - rewrite (HasBinary_decided_by_prefix [VString "x"] [VBytes [Byte.x01]]).
    + reflexivity.
    + right. reflexivity.
  - rewrite (HasBinary_decided_by_prefix [VBytes [Byte.x01]] [VString "x"]).
    + reflexivity.
    + left. reflexivity.
Defined.

(** ** The two ways to emit *)

Lemma packetBy_type (binary : bool) (event : string) (data : list value) :
  packetBy binary event data !! "type"
  = Some (VInt (if binary || HasBinary data then 5 else 2)).
Proof.
  destruct binary; unfold packetBy, EmitPacket, EmitBinaryPacket; simpl.
  - by rewrite lookup_insert_ne, lookup_singleton_eq.
  - rewrite lookup_insert_ne, lookup_singleton_eq by done.
    by destruct (HasBinary data).
Qed.

(** The packet in the envelope of an emission, on any session. *)
Lemma emit_packet (Encode : value → encoded)
    (Get : World → pooled)
    (Do : string → list Byte.byte → option string)
    (emitter : Emitter) (w : World) (g : gmap string value) :
  ∃ r, emit Encode Get Do emitter w (Some g) = Ok r ∧
    packetOf (pack r)
    = Some (if isNil (index (flags emitter) "nsp") then g
            else <["nsp" := index (flags emitter) "nsp"]> g) ∧
    optionsOf (pack r)
    = Some (<["flags" := VMap (if isNil (index (flags emitter) "nsp")
                               then flags emitter
                               else remove (flags emitter) "nsp")]>
              {["rooms" := VStrings (rooms emitter)]}).
Proof.
  destruct (emit_cases Encode Get Do emitter w g) as (r & Hr & Hpack & _).
  exists r. split; [done|]. rewrite Hpack.
  by destruct (isNil (index (flags emitter) "nsp")).
Qed.

(** X5.  Whatever the session, [Emit] and [EmitBinary] do not panic, and
    the packet they hand to the encoder has type 5 when the call is
    [EmitBinary] or [HasBinary] answers true for the arguments, type 2
    otherwise; a pending namespace does not disturb the type or the data. *)
Theorem emission_packet_type
    (Encode : value → encoded) (Get : World → pooled)
    (Do : string → list Byte.byte → option string)
    (binary : bool) (e : Emitter) (w : World) (event : string) (data : list value) :
  ∃ r, emitBy Encode Get Do binary e w event data = Ok r ∧
    packetOf (pack r) ≫= lookup "type"
    = Some (VInt (if binary || HasBinary data then BINARY_EVENT else EVENT)) ∧
    packetOf (pack r) ≫= lookup "data" = Some (VSlice (VString event :: data)).
Proof.
  rewrite emitBy_emit.
  destruct (emit_packet Encode Get Do e w (packetBy binary event data))
    as (r & Hr & Hpacket & _).
  exists r. split; [done|]. rewrite Hpacket. simpl.
  destruct (isNil (index (flags e) "nsp")).
  - split; [apply packetBy_type|by destruct binary].
  - rewrite !lookup_insert_ne by done.
    split; [apply packetBy_type|by destruct binary].
Qed.

(** X6.  [Emit] does what [EmitBinary] does exactly when [HasBinary]
    answers true for the arguments. *)
Theorem Emit_is_EmitBinary_iff_HasBinary
    (Encode : value → encoded) (Get : World → pooled)
    (Do : string → list Byte.byte → option string)
    (e : Emitter) (w : World) (event : string) (data : list value) :
  Emit Encode Get Do e w event data = EmitBinary Encode Get Do e w event data
  ↔ HasBinary data = true.
Proof.
  split.
  - intros Heq.
    destruct (emit_packet Encode Get Do e w (packetBy false event data)) as (r & Hr & Hp & _).
    destruct (emit_packet Encode Get Do e w (packetBy true event data)) as (r' & Hr' & Hp' & _).
    change (Emit Encode Get Do e w event data = Ok r) in Hr.
    change (EmitBinary Encode Get Do e w event data = Ok r') in Hr'.
    rewrite Heq, Hr' in Hr. injection Hr as <-.
    rewrite Hp' in Hp. injection Hp as Hp.
    assert (packetBy true event data !! "type" = packetBy false event data !! "type") as Ht.
    { destruct (isNil (index (flags e) "nsp"));
        [exact (f_equal (lookup "type") Hp)|].
      apply (f_equal (lookup "type")) in Hp.
      rewrite !lookup_insert_ne in Hp by done. exact Hp. }
    rewrite !packetBy_type in Ht. simpl in Ht. by destruct (HasBinary data).
  - intros Hbin. unfold Emit, EmitBinary, EmitPacket, EmitBinaryPacket.
    by rewrite Hbin.
Qed.

(** ** The flag setters *)

Section SetterFacts.

Variable Encode : value → encoded.
Variable Get : World → pooled.
Variable Do : string → list Byte.byte → option string.

Lemma step_setter (c : call) (k : string) (e : Emitter) (w : World) :
  flagKey c = Some k →
  step Encode Get Do c (e, w)
  = match flags e with
    | Some g => Ok (withFlags e (Some (<[k := flagValue c]> g)), w)
    | None => Panic "assignment to entry in nil map"
    end.
Proof.
  destruct c; simpl; try done; intros [= <-];
    unfold Join, Volatile, Broadcast, Of; by destruct (flags e).
Qed.

Lemma step_room (c : call) (room : string) (e : Emitter) (w : World) :
  roomAsked c = Some room → step Encode Get Do c (e, w) = Ok (In room e, w).
Proof. destruct c; simpl; try done; by intros [= <-]. Qed.

Lemma step_emission (c : call) (e : Emitter) (w : World) :
  isEmission c = true →
  ∃ binary event data,
    step Encode Get Do c (e, w)
    = (r ← emitBy Encode Get Do binary e w event data; mret (session r, world r)).
Proof.
  destruct c as [| | | | | |event data|event data]; try done; intros _.
  - by exists false, event, data.
  - by exists true, event, data.
Qed.

(** Every call is a setter, a request for a room or an emission. *)
Lemma call_kinds (c : call) :
  (∃ k, flagKey c = Some k) ∨ (∃ room, roomAsked c = Some room) ∨ isEmission c = true.
Proof. destruct c; simpl; eauto. Qed.

Lemma In_flags (room : string) (e : Emitter) : flags (In room e) = flags e.
Proof. rewrite In_spec. by case_decide. Qed.

(** A call on a session whose flags map is made returns, and leaves the
    map made. *)
Lemma step_made (c : call) (e : Emitter) (w : World) :
  flags e ≠ None →
  ∃ e' w', step Encode Get Do c (e, w) = Ok (e', w') ∧ flags e' ≠ None.
Proof.
  intros Hmade.
  destruct (call_kinds c) as [[k Hk]|[[room Hroom]|Hemit]].
  - rewrite (step_setter c k) by done.
    destruct (flags e) as [g|]; [|done]. by eexists _, _.
  - rewrite (step_room c room) by done. eexists _, _. split; [done|].
    by rewrite In_flags.
  - destruct (step_emission c e w Hemit) as (binary & event & data & ->).
    destruct (emitBy_outcome Encode Get Do binary e w event data) as (r & -> & Hcases).
    simpl. eexists _, _. split; [done|].
    destruct (Encode (pack r)).
    + by destruct Hcases as (-> & _).
    + destruct Hcases as (-> & _). simpl.
      destruct (isNil (index (flags e) "nsp")); [done|]. by destruct (flags e).
Qed.

(** The only call that panics is a setter on the nil flags map. *)
Lemma step_panic (c : call) (e : Emitter) (w : World) (msg : string) :
  step Encode Get Do c (e, w) = Panic msg →
  msg = "assignment to entry in nil map" ∧ flags e = None ∧ flagKey c ≠ None.
Proof.
  destruct (call_kinds c) as [[k Hk]|[[room Hroom]|Hemit]].
  - rewrite (step_setter c k) by done.
    destruct (flags e); [done|]. intros [= <-]. by rewrite Hk.
  - by rewrite (step_room c room).
  - destruct (step_emission c e w Hemit) as (binary & event & data & ->).
    by destruct (emitBy_outcome Encode Get Do binary e w event data) as (r & -> & _).
Qed.

End SetterFacts.

Lemma bind_Ok {A B} (a : A) (f : A → outcome B) : (Ok a ≫= f) = f a.
Proof. done. Qed.

Lemma bind_Panic {A B} (msg : string) (f : A → outcome B) : (Panic msg ≫= f) = Panic msg.
Proof. done. Qed.

Lemma run_nil (Encode : value → encoded) (Get : World → pooled)
    (Do : string → list Byte.byte → option string)
    (st : Emitter * World) :
  run Encode Get Do [] st = Ok st.
Proof. done. Qed.

(** X7.  Of two setters of the same flag in a row the second one wins, so
    a namespace given twice is the one given last and a setter called twice
    does what it does once. *)
Theorem later_setter_wins
    (Encode : value → encoded) (Get : World → pooled)
    (Do : string → list Byte.byte → option string)
    (c1 c2 : call) (k : string) (e : Emitter) (w : World) :
  flagKey c1 = Some k → flagKey c2 = Some k →
  run Encode Get Do [c1; c2] (e, w) = run Encode Get Do [c2] (e, w).
Proof.
  intros H1 H2. rewrite !run_cons, (step_setter _ _ _ c1 k), (step_setter _ _ _ c2 k) by done.
  destruct (flags e) as [g|] eqn:Hg; [|done].
  rewrite !bind_Ok, run_cons, (step_setter _ _ _ c2 k) by done.
  simpl flags. cbv beta iota. rewrite bind_Ok, !run_nil.
  unfold withFlags. simpl. by rewrite insert_insert_eq.
Qed.

(** On [chatSession], the namespace "/chat" then "/news" is "/news". *)
Lemma later_setter_wins_witness :
  run sampleEncode poolUp connUp [COf "/chat"; COf "/news"] (chatSession, quiet)
  = run sampleEncode poolUp connUp [COf "/news"] (chatSession, quiet) ∧
  index (flags (sessionAfter
                  (run sampleEncode poolUp connUp [COf "/chat"; COf "/news"] (chatSession, quiet))))
    "nsp" = VString "/news".
Proof.
  pose proof (later_setter_wins sampleEncode poolUp connUp (COf "/chat") (COf "/news") "nsp"
                chatSession quiet eq_refl eq_refl) as H.
  split; [exact H|]. rewrite H. vm_compute. reflexivity.
Defined.

(** X8.  A setter can change places with the call after it when that call
    asks for a room or sets another flag: the session, the outside and
    a panic are the same in either order. *)
Theorem setter_commutes
    (Encode : value → encoded) (Get : World → pooled)
    (Do : string → list Byte.byte → option string)
    (c1 c2 : call) (k : string) (e : Emitter) (w : World) :
  flagKey c1 = Some k →
  (roomAsked c2 ≠ None ∨ ∃ k', flagKey c2 = Some k' ∧ k ≠ k') →
  run Encode Get Do [c1; c2] (e, w) = run Encode Get Do [c2; c1] (e, w).
Proof.
  intros H1 [Hroom|(k' & H2 & Hne)].
  - destruct (roomAsked c2) as [room|] eqn:Hc2; [|done].
    rewrite !run_cons, (step_setter _ _ _ c1 k), (step_room _ _ _ c2 room) by done.
    rewrite bind_Ok, run_cons, (step_setter _ _ _ c1 k), In_flags by done.
    destruct (flags e) as [g|] eqn:Hg; [|done].
    rewrite !bind_Ok, run_cons, (step_room _ _ _ c2 room), !bind_Ok, !run_nil by done.
    do 2 f_equal. rewrite !In_spec. simpl. case_decide; [done|].
    done.
  - rewrite !run_cons, (step_setter _ _ _ c1 k), (step_setter _ _ _ c2 k') by done.
    destruct (flags e) as [g|] eqn:Hg; [|done].
    rewrite !bind_Ok, !run_cons, (step_setter _ _ _ c2 k'), (step_setter _ _ _ c1 k) by done.
    simpl flags. cbv beta iota. rewrite !bind_Ok, !run_nil. do 2 f_equal.
    unfold withFlags. simpl. by rewrite insert_insert_ne.
Qed.

(** On [chatSession]: join and a room, and a namespace and volatile, in
    either order. *)
Lemma setter_commutes_witness :
  run sampleEncode poolUp connUp [CJoin; CIn "b"] (chatSession, quiet)
  = run sampleEncode poolUp connUp [CIn "b"; CJoin] (chatSession, quiet) ∧
  run sampleEncode poolUp connUp [COf "/x"; CVolatile] (chatSession, quiet)
  = run sampleEncode poolUp connUp [CVolatile; COf "/x"] (chatSession, quiet) ∧
  rooms (sessionAfter (run sampleEncode poolUp connUp [CIn "b"; CJoin] (chatSession, quiet)))
  = ["b"].
Proof.
  split_and!.
  - apply (setter_commutes sampleEncode poolUp connUp CJoin (CIn "b") "join");
      [reflexivity|left; discriminate].
  - apply (setter_commutes sampleEncode poolUp connUp (COf "/x") CVolatile "nsp");
      [reflexivity|right; exists "volatile"; split; [reflexivity|discriminate]].
  - vm_compute. reflexivity.
Defined.

(** X9.  A setter that returns has written one entry of the flags, its
    own, and nothing else: the other flags, the rooms, the key, the
    channels and the outside are as before. *)
Theorem setter_records_one_entry
    (Encode : value → encoded) (Get : World → pooled)
    (Do : string → list Byte.byte → option string)
    (c : call) (k : string) (e e' : Emitter) (w w' : World) :
  flagKey c = Some k →
  step Encode Get Do c (e, w) = Ok (e', w') →
  flags e' ≫= lookup k = Some (flagValue c) ∧
  (∀ k', k' ≠ k → flags e' ≫= lookup k' = flags e ≫= lookup k') ∧
  rooms e' = rooms e ∧ Key e' = Key e ∧ opts e' = opts e ∧ w' = w.
Proof.
  intros Hk. rewrite (step_setter _ _ _ c k) by done.
  destruct (flags e) as [g|] eqn:Hg; [|done]. intros [= <- <-]. simpl.
  split_and!; try done.
  - apply lookup_insert_eq.
  - intros k' Hne. by rewrite lookup_insert_ne.
Qed.

(** [Broadcast] on [chatSession] keeps join and the namespace. *)
Lemma setter_records_one_entry_witness :
  step sampleEncode poolUp connUp CBroadcast (chatSession, quiet)
  = Ok (withFlags chatSession
          (Some (<["broadcast" := VBool true]>
                   (<["join" := VBool true]> {["nsp" := VString "/chat"]}))), quiet) ∧
  flags (withFlags chatSession
           (Some (<["broadcast" := VBool true]>
                    (<["join" := VBool true]> {["nsp" := VString "/chat"]}))))
  ≫= lookup "nsp" = Some (VString "/chat").
Proof.
  assert (step sampleEncode poolUp connUp CBroadcast (chatSession, quiet)
          = Ok (withFlags chatSession
                  (Some (<["broadcast" := VBool true]>
                           (<["join" := VBool true]> {["nsp" := VString "/chat"]}))), quiet))
    as Hstep by reflexivity.
  split; [exact Hstep|].
  destruct (setter_records_one_entry sampleEncode poolUp connUp CBroadcast "broadcast"
              _ _ _ _ eq_refl Hstep) as (_ & Hkeep & _).
  rewrite (Hkeep "nsp") by done. vm_compute. reflexivity.
Defined.

(** X10.  Once the flags map is made, and a successful emission makes it,
    no call panics any more: every sequence of calls returns, and the map
    is still made at its end. *)
Theorem no_panic_once_flags_are_made
    (Encode : value → encoded) (Get : World → pooled)
    (Do : string → list Byte.byte → option string)
    (cs : list call) (e : Emitter) (w : World) :
  flags e ≠ None →
  ∃ e' w', run Encode Get Do cs (e, w) = Ok (e', w') ∧ flags e' ≠ None.
Proof.
  revert e w. induction cs as [|c cs IH]; intros e w Hmade.
  - by exists e, w.
  - rewrite run_cons.
    destruct (step_made Encode Get Do c e w Hmade) as (e1 & w1 & -> & Hmade1).
    by apply IH.
Qed.

(** After one emission on the session of the constructor, setters and
    failed emissions go through. *)
Lemma no_panic_once_flags_are_made_witness :
  flags (withFlags (NewEmitter noOpts) make) ≠ None ∧
  ∃ e' w',
    run sampleEncode poolUp connDown
      [CJoin; COf "/chat"; CEmit "news" [VFunc]; CVolatile; CEmitBinary "news" []; CBroadcast]
      (withFlags (NewEmitter noOpts) make, quiet) = Ok (e', w') ∧
    flags e' ≠ None.
Proof.
  assert (flags (withFlags (NewEmitter noOpts) make) ≠ None) as Hmade by discriminate.
  split; [exact Hmade|].
  exact (no_panic_once_flags_are_made sampleEncode poolUp connDown _ _ quiet Hmade).
Defined.

(** X11.  A sequence of calls panics in one way only: a setter assigns to
    the flags while they are still the nil map.  The session then started
    with nil flags and the sequence holds a setter; the rooms index and the
    packet never cause a panic. *)
Theorem panic_is_setter_on_nil_flags
    (Encode : value → encoded) (Get : World → pooled)
    (Do : string → list Byte.byte → option string)
    (cs : list call) (e : Emitter) (w : World) (msg : string) :
  run Encode Get Do cs (e, w) = Panic msg →
  msg = "assignment to entry in nil map" ∧ flags e = None ∧
  ∃ c, c ∈ cs ∧ flagKey c ≠ None.
Proof.
  revert e w. induction cs as [|c cs IH]; intros e w; [done|].
  rewrite run_cons.
  destruct (step Encode Get Do c (e, w)) as [[e1 w1]|msg1] eqn:Hstep.
  - intros (-> & Hnil & c' & Hc' & Hset)%IH. split_and!; [done| |].
    + destruct (flags e) as [g|] eqn:Hg; [|done].
      destruct (step_made Encode Get Do c e w) as (e2 & w2 & Hstep2 & Hmade); [by rewrite Hg|].
      rewrite Hstep in Hstep2. by injection Hstep2 as <- <-.
    + exists c'. split; [by right|done].
  - intros [= <-]. apply step_panic in Hstep as (-> & Hnil & Hset).
    split_and!; [done|done|]. exists c. split; [left|done].
Qed.

(** A room, then [Join], on the session of the constructor. *)
Lemma panic_is_setter_on_nil_flags_witness :
  run sampleEncode poolUp connUp [CIn "a"; CJoin; CEmit "news" []] (NewEmitter noOpts, quiet)
  = Panic "assignment to entry in nil map" ∧
  flags (NewEmitter noOpts) = None.
Proof.
  assert (run sampleEncode poolUp connUp [CIn "a"; CJoin; CEmit "news" []] (NewEmitter noOpts, quiet)
          = Panic "assignment to entry in nil map") as Hrun by reflexivity.
  split; [exact Hrun|].
  exact (proj1 (proj2 (panic_is_setter_on_nil_flags _ _ _ _ _ _ _ Hrun))).
Defined.

(** ** Rooms *)

Lemma elem_of_firstOccurrences (x : string) (l : list string) :
  x ∈ firstOccurrences l ↔ x ∈ l.
Proof.
  induction l as [|a l IH]; [done|]. simpl.
  rewrite !elem_of_cons, list_elem_of_filter, IH.
  destruct (decide (x = a)); tauto.
Qed.

(** X12.  After [In room] the session holds the room; the rooms it held
    are still there, in their places and before the new one, at most one
    room was added, a list without duplicates stays without, and the
    flags, the key and the channels are untouched. *)
Theorem In_holds_room (room : string) (e : Emitter) :
  room ∈ rooms (In room e) ∧
  rooms e `prefix_of` rooms (In room e) ∧
  (∀ r, r ∈ rooms (In room e) ↔ r ∈ rooms e ∨ r = room) ∧
  (length (rooms (In room e)) ≤ S (length (rooms e)))%nat ∧
  (NoDup (rooms e) → NoDup (rooms (In room e))) ∧
  flags (In room e) = flags e ∧ Key (In room e) = Key e ∧ opts (In room e) = opts e.
Proof.
  rewrite In_spec. case_decide as Hroom; simpl.
  - split_and!; try done; [|lia].
    intros r. split; [tauto|]. by intros [?| ->].
  - split_and!; try done.
    + apply elem_of_app. right. by apply list_elem_of_singleton.
    + by exists [room].
    + intros r. rewrite elem_of_app, list_elem_of_singleton. tauto.
    + rewrite length_app. simpl. lia.
    + intros Hnd. apply NoDup_app. split_and!; [done| |apply NoDup_singleton].
      by intros x Hx ->%list_elem_of_singleton.
Qed.

(** X13.  No call takes a room away or moves it: after any sequence of
    calls the rooms held before are the first rooms of the session, and the
    session holds exactly those and the rooms asked for by [In] and [To]
    in the sequence. *)
Theorem rooms_only_grow
    (Encode : value → encoded) (Get : World → pooled)
    (Do : string → list Byte.byte → option string)
    (cs : list call) (e e' : Emitter) (w w' : World) :
  run Encode Get Do cs (e, w) = Ok (e', w') →
  rooms e `prefix_of` rooms e' ∧
  ∀ room, room ∈ rooms e' ↔ room ∈ rooms e ∨ room ∈ roomsAsked cs.
Proof.
  intros Hrun. rewrite (run_rooms _ _ _ _ _ _ _ _ Hrun). split.
  - by eexists.
  - intros room.
    rewrite elem_of_app, list_elem_of_filter, elem_of_firstOccurrences.
    destruct (decide (room ∈ rooms e)); tauto.
Qed.

(** The rooms of [sampleRun] are still first after two emissions and two
    more rooms. *)
Lemma rooms_only_grow_witness :
  run sampleEncode poolUp connDown [CEmit "a" []; CIn "x"; CEmitBinary "b" [VFunc]; CTo "room1"; CIn "y"]
    (sessionAfter sampleRun, quiet)
  = Ok (sessionAfter
          (run sampleEncode poolUp connDown
             [CEmit "a" []; CIn "x"; CEmitBinary "b" [VFunc]; CTo "room1"; CIn "y"]
             (sessionAfter sampleRun, quiet)),
        worldAfter
          (run sampleEncode poolUp connDown
             [CEmit "a" []; CIn "x"; CEmitBinary "b" [VFunc]; CTo "room1"; CIn "y"]
             (sessionAfter sampleRun, quiet))) ∧
  rooms (sessionAfter sampleRun)
  `prefix_of`
  rooms (sessionAfter
           (run sampleEncode poolUp connDown
              [CEmit "a" []; CIn "x"; CEmitBinary "b" [VFunc]; CTo "room1"; CIn "y"]
              (sessionAfter sampleRun, quiet))).
Proof.
  assert (run sampleEncode poolUp connDown
            [CEmit "a" []; CIn "x"; CEmitBinary "b" [VFunc]; CTo "room1"; CIn "y"]
            (sessionAfter sampleRun, quiet)
          = Ok (sessionAfter
                  (run sampleEncode poolUp connDown
                     [CEmit "a" []; CIn "x"; CEmitBinary "b" [VFunc]; CTo "room1"; CIn "y"]
                     (sessionAfter sampleRun, quiet)),
                worldAfter
                  (run sampleEncode poolUp connDown
                     [CEmit "a" []; CIn "x"; CEmitBinary "b" [VFunc]; CTo "room1"; CIn "y"]
                     (sessionAfter sampleRun, quiet)))) as Hrun
    by (vm_compute; reflexivity).
  split; [exact Hrun|].
  exact (proj1 (rooms_only_grow sampleEncode poolUp connDown _ _ _ _ _ Hrun)).
Defined.

(** X14.  Asking for two rooms in either order gives the same rooms up to
    their order, and the same session otherwise. *)
Theorem In_order_only_permutes (a b : string) (e : Emitter) :
  rooms (In a (In b e)) ≡ₚ rooms (In b (In a e)) ∧
  flags (In a (In b e)) = flags (In b (In a e)) ∧
  Key (In a (In b e)) = Key (In b (In a e)) ∧
  opts (In a (In b e)) = opts (In b (In a e)).
Proof.
  rewrite !In_spec.
  destruct (decide (b ∈ rooms e)) as [Hb|Hb], (decide (a ∈ rooms e)) as [Ha|Ha]; simpl;
    repeat case_decide; simpl; try done;
    repeat match goal with
    | H : _ ∈ _ ++ [_] |- _ => apply elem_of_app in H as [H|H%list_elem_of_singleton]
    | H : _ ∉ _ ++ [_] |- _ => rewrite elem_of_app, list_elem_of_singleton in H
    end; try done; try tauto; subst; try tauto.
  all: split; [|done].
  all: rewrite <-?app_assoc; apply Permutation_app_head; simpl.
  all: first [done|apply perm_swap].
Qed.

(** ** The outside *)

Lemma emissions_cons (c : call) (cs : list call) :
  emissions (c :: cs) = ((if isEmission c then 1 else 0) + emissions cs)%nat.
Proof.
  unfold emissions. destruct (isEmission c) eqn:Hc.
  - by rewrite filter_cons_True.
  - rewrite filter_cons_False; [done|]. by rewrite Hc.
Qed.

Lemma World_eq (w w' : World) :
  wire w' = wire w → stderr w' = stderr w → sentLive w' = sentLive w → w' = w.
Proof. destruct w, w'. simpl. by intros -> -> ->. Qed.

Section OutsideFacts.

Variable Encode : value → encoded.
Variable Get : World → pooled.
Variable Do : string → list Byte.byte → option string.

Lemma added_none (n : nat) (w : World) : added Get Do n w w.
Proof.
  exists [], [], []. rewrite !app_nil_r. simpl. split_and!; try done; lia.
Qed.

(** One call of [publish]. *)
Lemma publish_added (w : World) (channel : string) (buf : list Byte.byte) :
  added Get Do 1 w (publish Get Do w channel buf).
Proof.
  assert (givesLive (Get w) = true →
          added Get Do 1 w
            match Do channel buf with
            | Some msg =>
                {| wire := wire w ++ [(channel, buf)];
                   stderr := stderr w ++ [Printed ("ERROR: " +:+ msg)];
                   sentLive := sentLive w ++ [(channel, buf)] |}
            | None =>
                {| wire := wire w ++ [(channel, buf)];
                   stderr := stderr w;
                   sentLive := sentLive w ++ [(channel, buf)] |}
            end) as Hlive.
  { intros HG. destruct (Do channel buf) as [msg|] eqn:HDo.
    - exists [(channel, buf)], [Printed ("ERROR: " +:+ msg)], [(channel, buf)].
      split_and!; try done; simpl; try lia.
      + constructor; [left; by exists msg|constructor].
      + intros _. split; [done|]. intros Hup. by rewrite Hup in HDo.
      + intros Hdown. specialize (Hdown w). by rewrite HG in Hdown.
      + intros _. constructor; [by exists msg|constructor].
    - exists [(channel, buf)], [], [(channel, buf)]. simpl. rewrite app_nil_r.
      split_and!; try done; simpl; try lia.
      intros Hdown. specialize (Hdown w). by rewrite HG in Hdown. }
  unfold publish, poolGet.
  destruct (Get w) as [|[err|]|err] eqn:HG; simpl.
  - by apply Hlive.
  - exists [(channel, buf)],
      [Logged ("Failed to init redis pool: " +:+ err); Printed ("ERROR: " +:+ err)], [].
    simpl. rewrite <-app_assoc, app_nil_r. split_and!; try done; simpl; try lia.
    + constructor; [right; by exists err|].
      constructor; [left; by exists err|constructor].
    + intros Hup. specialize (Hup w). by rewrite HG in Hup.
    + intros Hnodial. by destruct (Hnodial w err).
  - by apply Hlive.
  - exists [(channel, buf)], [Printed ("ERROR: " +:+ err)], [].
    simpl. rewrite app_nil_r. split_and!; try done; simpl; try lia.
    + constructor; [left; by exists err|constructor].
    + intros Hup. specialize (Hup w). by rewrite HG in Hup.
    + intros _. constructor; [by exists err|constructor].
Qed.

Lemma step_added (c : call) (e e' : Emitter) (w w' : World) :
  step Encode Get Do c (e, w) = Ok (e', w') →
  added Get Do (if isEmission c then 1 else 0) w w'.
Proof.
  destruct (call_kinds c) as [[k Hk]|[[room Hroom]|Hemit]].
  - rewrite (step_setter _ _ _ c k) by done.
    destruct (flags e); [|done]. intros [= <- <-]. apply added_none.
  - rewrite (step_room _ _ _ c room) by done. intros [= <- <-]. apply added_none.
  - destruct (step_emission Encode Get Do c e w Hemit) as (binary & event & data & ->).
    destruct (emitBy_outcome Encode Get Do binary e w event data) as (r & -> & Hcases).
    rewrite bind_Ok. intros [= <- <-]. rewrite Hemit.
    destruct (Encode (pack r)) as [buf|err].
    + destruct Hcases as (_ & _ & ->). apply publish_added.
    + destruct Hcases as (_ & _ & ->). apply added_none.
Qed.

Lemma run_added (cs : list call) (e e' : Emitter) (w w' : World) :
  run Encode Get Do cs (e, w) = Ok (e', w') → added Get Do (emissions cs) w w'.
Proof.
  revert e w. induction cs as [|c cs IH]; intros e w.
  - intros [= <- <-]. apply added_none.
  - rewrite run_cons.
    destruct (step Encode Get Do c (e, w)) as [[e1 w1]|] eqn:Hstep; [|done].
    rewrite bind_Ok.
    intros (calls2 & writes2 & live2 & Hw2 & He2 & Hs2 & Hn2 & Hm2 & Hl2 & Hf2
            & Hup2 & Hdown2 & Hp2)%IH.
    apply step_added in Hstep
      as (calls1 & writes1 & live1 & Hw1 & He1 & Hs1 & Hn1 & Hm1 & Hl1 & Hf1
          & Hup1 & Hdown1 & Hp1).
    exists (calls1 ++ calls2), (writes1 ++ writes2), (live1 ++ live2).
    rewrite Hw2, He2, Hs2, Hw1, He1, Hs1, !app_assoc, emissions_cons, !length_app.
    split_and!; try done; try lia.
    + by apply Forall_app.
    + intros Hlive. destruct (Hup1 Hlive) as [-> Hq1], (Hup2 Hlive) as [-> Hq2].
      split; [done|]. intros Hup. by rewrite Hq1, Hq2.
    + intros Hdown. by rewrite Hdown1, Hdown2.
    + intros Hnodial. apply Forall_app. split; [by apply Hp1|by apply Hp2].
Qed.

(** No call changes the key or the channels of a session. *)
Lemma step_identity (c : call) (e e' : Emitter) (w w' : World) :
  step Encode Get Do c (e, w) = Ok (e', w') → Key e' = Key e ∧ opts e' = opts e.
Proof.
  destruct (call_kinds c) as [[k Hk]|[[room Hroom]|Hemit]].
  - rewrite (step_setter _ _ _ c k) by done.
    destruct (flags e); [|done]. by intros [= <- <-].
  - rewrite (step_room _ _ _ c room) by done. intros [= <- <-].
    rewrite In_spec. by case_decide.
  - destruct (step_emission Encode Get Do c e w Hemit) as (binary & event & data & ->).
    destruct (emitBy_outcome Encode Get Do binary e w event data) as (r & -> & Hcases).
    rewrite bind_Ok. intros [= <- <-].
    destruct (Encode (pack r)); by destruct Hcases as (-> & _).
Qed.

Lemma run_identity (cs : list call) (e e' : Emitter) (w w' : World) :
  run Encode Get Do cs (e, w) = Ok (e', w') → Key e' = Key e ∧ opts e' = opts e.
Proof.
  revert e w. induction cs as [|c cs IH]; intros e w.
  - by intros [= <- <-].
  - rewrite run_cons.
    destruct (step Encode Get Do c (e, w)) as [[e1 w1]|] eqn:Hstep; [|done].
    rewrite bind_Ok. intros [-> ->]%IH. by eapply step_identity.
Qed.

(** The channels a run hands to PUBLISH begin with the base channel. *)
Lemma run_channels (cs : list call) (e e' : Emitter) (w w' : World) :
  run Encode Get Do cs (e, w) = Ok (e', w') →
  ∃ sent, wire w' = wire w ++ sent ∧
    Forall (λ m, String.prefix (broadcastChannel (opts e)) m.1 = true) sent.
Proof.
  revert e w. induction cs as [|c cs IH]; intros e w.
  - intros [= <- <-]. exists []. by rewrite app_nil_r.
  - rewrite run_cons.
    destruct (step Encode Get Do c (e, w)) as [[e1 w1]|] eqn:Hstep; [|done].
    rewrite bind_Ok. intros (sent2 & -> & Hp2)%IH.
    destruct (step_identity _ _ _ _ _ Hstep) as [_ Hopts]. rewrite Hopts in Hp2.
    assert (∃ sent1, wire w1 = wire w ++ sent1 ∧
              Forall (λ m, String.prefix (broadcastChannel (opts e)) m.1 = true) sent1)
      as (sent1 & -> & Hp1).
    { revert Hstep. destruct (call_kinds c) as [[k Hk]|[[room Hroom]|Hemit]].
      - rewrite (step_setter _ _ _ c k) by done.
        destruct (flags e); [|done]. intros [= <- <-]. exists []. by rewrite app_nil_r.
      - rewrite (step_room _ _ _ c room) by done. intros [= <- <-].
        exists []. by rewrite app_nil_r.
      - destruct (step_emission Encode Get Do c e w Hemit) as (binary & event & data & ->).
        destruct (emitBy_outcome Encode Get Do binary e w event data) as (r & -> & Hcases).
        rewrite bind_Ok. intros [= <- <-].
        destruct (Encode (pack r)) as [buf|err].
        + destruct Hcases as (_ & _ & ->). rewrite publish_wire.
          eexists [_]. split; [done|]. constructor; [|constructor]. simpl.
          destruct (rooms e) as [|room [|room' rs]];
            [apply prefix_refl|apply prefix_append|apply prefix_refl].
        + destruct Hcases as (_ & _ & ->). exists []. by rewrite app_nil_r. }
    exists (sent1 ++ sent2). rewrite app_assoc. split; [done|]. by apply Forall_app.
Qed.

End OutsideFacts.

(** X15.  Over any sequence of calls the outside only grows: the commands
    handed to a connection, the writes to standard error and the commands
    on a live connection that were there stay first; at most one command
    is handed over for each call of [Emit] or [EmitBinary], at most two
    writes are made for each command (a refused dial is logged and then
    reported), at most one command in each goes to a live connection, and
    a sequence without an emission leaves the outside as it was. *)
Theorem outside_grows_by_emissions
    (Encode : value → encoded) (Get : World → pooled)
    (Do : string → list Byte.byte → option string)
    (cs : list call) (e e' : Emitter) (w w' : World) :
  run Encode Get Do cs (e, w) = Ok (e', w') →
  wire w `prefix_of` wire w' ∧
  stderr w `prefix_of` stderr w' ∧
  sentLive w `prefix_of` sentLive w' ∧
  (length (wire w') ≤ length (wire w) + emissions cs)%nat ∧
  (length (stderr w') + 2 * length (wire w)
   ≤ length (stderr w) + 2 * length (wire w'))%nat ∧
  (length (sentLive w') + length (wire w)
   ≤ length (sentLive w) + length (wire w'))%nat ∧
  (emissions cs = 0%nat → w' = w).
Proof.
  intros (calls & writes & live & Hw & He & Hs & Hn & Hm & Hl & _)%run_added.
  split_and!.
  - rewrite Hw. by eexists.
  - rewrite He. by eexists.
  - rewrite Hs. by eexists.
  - rewrite Hw, length_app. lia.
  - rewrite Hw, He, !length_app. lia.
  - rewrite Hw, Hs, !length_app. lia.
  - intros H0. rewrite H0 in Hn.
    destruct calls; [|simpl in Hn; lia]. destruct writes; [|simpl in Hm; lia].
    destruct live; [|simpl in Hl; lia].
    apply World_eq; [by rewrite Hw, app_nil_r|by rewrite He, app_nil_r
                    |by rewrite Hs, app_nil_r].
Qed.

(** Five calls of which two emit, one of them refused by the encoder, on a
    pool whose dial is refused: one command handed over, two writes,
    nothing on a live connection. *)
Lemma outside_grows_by_emissions_witness :
  run sampleEncode poolDown connUp [CEmit "a" []; CIn "x"; CEmitBinary "b" [VFunc]; CTo "room1"; CIn "y"]
    (sessionAfter sampleRun, worldAfter sampleRun)
  = Ok (sessionAfter
          (run sampleEncode poolDown connUp [CEmit "a" []; CIn "x"; CEmitBinary "b" [VFunc]; CTo "room1"; CIn "y"]
             (sessionAfter sampleRun, worldAfter sampleRun)),
        worldAfter
          (run sampleEncode poolDown connUp [CEmit "a" []; CIn "x"; CEmitBinary "b" [VFunc]; CTo "room1"; CIn "y"]
             (sessionAfter sampleRun, worldAfter sampleRun))) ∧
  wire (worldAfter sampleRun)
  `prefix_of`
  wire (worldAfter
          (run sampleEncode poolDown connUp [CEmit "a" []; CIn "x"; CEmitBinary "b" [VFunc]; CTo "room1"; CIn "y"]
             (sessionAfter sampleRun, worldAfter sampleRun))) ∧
  length (wire (worldAfter
          (run sampleEncode poolDown connUp [CEmit "a" []; CIn "x"; CEmitBinary "b" [VFunc]; CTo "room1"; CIn "y"]
             (sessionAfter sampleRun, worldAfter sampleRun)))) = 2%nat ∧
  length (stderr (worldAfter
          (run sampleEncode poolDown connUp [CEmit "a" []; CIn "x"; CEmitBinary "b" [VFunc]; CTo "room1"; CIn "y"]
             (sessionAfter sampleRun, worldAfter sampleRun)))) = 2%nat ∧
  length (sentLive (worldAfter
          (run sampleEncode poolDown connUp [CEmit "a" []; CIn "x"; CEmitBinary "b" [VFunc]; CTo "room1"; CIn "y"]
             (sessionAfter sampleRun, worldAfter sampleRun)))) = 1%nat.
Proof.
  assert (run sampleEncode poolDown connUp [CEmit "a" []; CIn "x"; CEmitBinary "b" [VFunc]; CTo "room1"; CIn "y"]
            (sessionAfter sampleRun, worldAfter sampleRun)
          = Ok (sessionAfter
                  (run sampleEncode poolDown connUp [CEmit "a" []; CIn "x"; CEmitBinary "b" [VFunc]; CTo "room1"; CIn "y"]
                     (sessionAfter sampleRun, worldAfter sampleRun)),
                worldAfter
                  (run sampleEncode poolDown connUp [CEmit "a" []; CIn "x"; CEmitBinary "b" [VFunc]; CTo "room1"; CIn "y"]
                     (sessionAfter sampleRun, worldAfter sampleRun)))) as Hrun
    by (vm_compute; reflexivity).
  split_and!; [exact Hrun| |vm_compute; reflexivity..].
  exact (proj1 (outside_grows_by_emissions sampleEncode poolDown connUp _ _ _ _ _ Hrun)).
Defined.

(** X16.  Standard error is written to only to report a failure of the
    pool or of the connection: every write a sequence of calls adds is the
    error printed by [publish], "ERROR: ...", or the entry logged by [Dial],
    "Failed to init redis pool: ..."; the entry is logged only when a dial
    is refused; and when the pool always hands out a live connection and
    the connection never fails, nothing is written. *)
Theorem stderr_only_on_failure
    (Encode : value → encoded) (Get : World → pooled)
    (Do : string → list Byte.byte → option string)
    (cs : list call) (e e' : Emitter) (w w' : World) :
  run Encode Get Do cs (e, w) = Ok (e', w') →
  ∃ writes,
    stderr w' = stderr w ++ writes ∧
    Forall failureWrite writes ∧
    ((∀ w0 err, Get w0 ≠ Dialled (Some err)) → Forall printedError writes) ∧
    ((∀ w0, givesLive (Get w0) = true) → (∀ channel buf, Do channel buf = None) →
     writes = []).
Proof.
  intros (calls & writes & live & _ & He & _ & _ & _ & _ & Hf & Hup & _ & Hp)%run_added.
  exists writes. split_and!; [done|done|done|].
  intros Hlive Hdo. by apply (Hup Hlive).
Qed.

(** [sampleCalls] on the pool and the connection that are up: nothing on
    standard error. *)
Lemma stderr_only_on_failure_witness :
  run sampleEncode poolUp connUp sampleCalls (NewEmitter noOpts, quiet)
  = Ok (sessionAfter sampleRun, worldAfter sampleRun) ∧
  ∃ writes,
    stderr (worldAfter sampleRun) = stderr quiet ++ writes ∧ writes = [].
Proof.
  assert (run sampleEncode poolUp connUp sampleCalls (NewEmitter noOpts, quiet)
          = Ok (sessionAfter sampleRun, worldAfter sampleRun)) as Hrun
    by (vm_compute; reflexivity).
  split; [exact Hrun|].
  destruct (stderr_only_on_failure sampleEncode poolUp connUp _ _ _ _ _ Hrun)
    as (writes & Hw & _ & _ & Hnone).
  exists writes. split; [exact Hw|].
  exact (Hnone (λ _, eq_refl) (λ _ _, eq_refl)).
Defined.

(** X17.  Every channel a process has handed to PUBLISH since [NewEmitter]
    begins with "{key}#/#", where the key is the one given to the
    constructor, or "socket.io" if none was given. *)
Theorem channels_begin_with_key
    (Encode : value → encoded) (Get : World → pooled)
    (Do : string → list Byte.byte → option string)
    (o : EmitterOpts) (cs : list call) (e' : Emitter) (w' : World) :
  run Encode Get Do cs (NewEmitter o, quiet) = Ok (e', w') →
  Forall (λ channel,
            String.prefix
              ((if String.eqb (OptsKey o) "" then "socket.io" else OptsKey o) +:+ "#/#")
              channel = true)
    (channels w').
Proof.
  intros (sent & Hw & Hp)%run_channels. unfold channels. rewrite Hw. simpl.
  apply Forall_fmap. eapply Forall_impl; [exact Hp|]. by intros [channel buf].
Qed.

(** The channels of [sampleCalls] followed by two emissions. *)
Lemma channels_begin_with_key_witness :
  run sampleEncode poolUp connUp (sampleCalls ++ [CEmit "a" []; CIn "x"; CEmit "b" []])
    (NewEmitter noOpts, quiet)
  = Ok (sessionAfter
          (run sampleEncode poolUp connUp (sampleCalls ++ [CEmit "a" []; CIn "x"; CEmit "b" []])
             (NewEmitter noOpts, quiet)),
        worldAfter
          (run sampleEncode poolUp connUp (sampleCalls ++ [CEmit "a" []; CIn "x"; CEmit "b" []])
             (NewEmitter noOpts, quiet))) ∧
  channels (worldAfter
          (run sampleEncode poolUp connUp (sampleCalls ++ [CEmit "a" []; CIn "x"; CEmit "b" []])
             (NewEmitter noOpts, quiet)))
  = ["socket.io#/#room1#"; "socket.io#/#room1#"; "socket.io#/#"] ∧
  Forall (λ channel, String.prefix "socket.io#/#" channel = true)
    (channels (worldAfter
          (run sampleEncode poolUp connUp (sampleCalls ++ [CEmit "a" []; CIn "x"; CEmit "b" []])
             (NewEmitter noOpts, quiet)))).
Proof.
  assert (run sampleEncode poolUp connUp (sampleCalls ++ [CEmit "a" []; CIn "x"; CEmit "b" []])
            (NewEmitter noOpts, quiet)
          = Ok (sessionAfter
                  (run sampleEncode poolUp connUp
                     (sampleCalls ++ [CEmit "a" []; CIn "x"; CEmit "b" []])
                     (NewEmitter noOpts, quiet)),
                worldAfter
                  (run sampleEncode poolUp connUp
                     (sampleCalls ++ [CEmit "a" []; CIn "x"; CEmit "b" []])
                     (NewEmitter noOpts, quiet)))) as Hrun
    by (vm_compute; reflexivity).
  split_and!; [exact Hrun|vm_compute; reflexivity|].
  exact (channels_begin_with_key sampleEncode poolUp connUp noOpts _ _ _ Hrun).
Defined.

(** X18.  No call changes the key or the channel names of a session: after
    any sequence of calls they are what the constructor made them. *)
Theorem key_and_channels_are_fixed
    (Encode : value → encoded) (Get : World → pooled)
    (Do : string → list Byte.byte → option string)
    (cs : list call) (e e' : Emitter) (w w' : World) :
  run Encode Get Do cs (e, w) = Ok (e', w') →
  Key e' = Key e ∧
  broadcastChannel (opts e') = broadcastChannel (opts e) ∧
  requestChannel (opts e') = requestChannel (opts e).
Proof.
  intros [HK Ho]%run_identity. by rewrite HK, Ho.
Qed.

Lemma key_and_channels_are_fixed_witness :
  run sampleEncode poolUp connUp sampleCalls (NewEmitter noOpts, quiet)
  = Ok (sessionAfter sampleRun, worldAfter sampleRun) ∧
  Key (sessionAfter sampleRun) = "socket.io" ∧
  broadcastChannel (opts (sessionAfter sampleRun)) = "socket.io#/#" ∧
  requestChannel (opts (sessionAfter sampleRun)) = "socket.io-request#/#".
Proof.
  assert (run sampleEncode poolUp connUp sampleCalls (NewEmitter noOpts, quiet)
          = Ok (sessionAfter sampleRun, worldAfter sampleRun)) as Hrun
    by (vm_compute; reflexivity).
  split; [exact Hrun|].
  exact (key_and_channels_are_fixed sampleEncode poolUp connUp _ _ _ _ _ Hrun).
Defined.

(** ** One emission after another *)

(** X19.  Flags and namespace are sent once: right after an emission that
    returned no error, the envelope of the next emission has no nsp key and
    an empty flags map, and still the same rooms. *)
Theorem flags_are_sent_once
    (Encode : value → encoded) (Get : World → pooled)
    (Do : string → list Byte.byte → option string)
    (binary binary' : bool) (e : Emitter) (w : World)
    (event event' : string) (data data' : list value) (r : EmitResult) :
  emitBy Encode Get Do binary e w event data = Ok r →
  error r = None →
  ∃ r', emitBy Encode Get Do binary' (session r) (world r) event' data' = Ok r' ∧
    packetOf (pack r') ≫= lookup "nsp" = None ∧
    optionsOf (pack r') ≫= lookup "flags" = Some (VMap (Some ∅)) ∧
    optionsOf (pack r') ≫= lookup "rooms" = Some (VStrings (rooms e)).
Proof.
  intros Hr Herr.
  destruct (emitBy_outcome Encode Get Do binary e w event data) as (r0 & Hr0 & Hcases).
  rewrite Hr in Hr0. injection Hr0 as <-.
  assert (session r = withFlags e make) as ->.
  { destruct (Encode (pack r)); destruct Hcases as (? & ? & _); [done|congruence]. }
  rewrite emitBy_emit.
  destruct (emit_packet Encode Get Do (withFlags e make) (world r) (packetBy binary' event' data'))
    as (r' & Hr' & Hpacket & Hoptions).
  exists r'. split; [done|]. rewrite Hpacket, Hoptions. simpl.
  split_and!; [by destruct binary'|done|done].
Qed.

(** After [sampleCalls], which leave a namespace and a flag pending, two
    emissions in a row. *)
Lemma flags_are_sent_once_witness :
  emitBy sampleEncode poolUp connUp false (sessionAfter sampleRun) (worldAfter sampleRun)
    "chat" [VString "hello"]
  = Ok (sessionResult
          (Emit sampleEncode poolUp connUp (sessionAfter sampleRun) (worldAfter sampleRun)
             "chat" [VString "hello"])) ∧
  ∃ r', emitBy sampleEncode poolUp connUp true
          (session (sessionResult
             (Emit sampleEncode poolUp connUp (sessionAfter sampleRun) (worldAfter sampleRun)
                "chat" [VString "hello"])))
          (world (sessionResult
             (Emit sampleEncode poolUp connUp (sessionAfter sampleRun) (worldAfter sampleRun)
                "chat" [VString "hello"])))
          "again" [] = Ok r' ∧
    packetOf (pack r') ≫= lookup "nsp" = None ∧
    optionsOf (pack r') ≫= lookup "flags" = Some (VMap (Some ∅)) ∧
    optionsOf (pack r') ≫= lookup "rooms" = Some (VStrings ["room1"]).
Proof.
  assert (emitBy sampleEncode poolUp connUp false (sessionAfter sampleRun) (worldAfter sampleRun)
            "chat" [VString "hello"]
          = Ok (sessionResult
                  (Emit sampleEncode poolUp connUp (sessionAfter sampleRun) (worldAfter sampleRun)
                     "chat" [VString "hello"]))) as Hr
    by (vm_compute; reflexivity).
  split; [exact Hr|].
  apply (flags_are_sent_once sampleEncode poolUp connUp false true _ _ "chat" "again"
           [VString "hello"] [] _ Hr).
  vm_compute. reflexivity.
Defined.

(** X20.  An emission the encoder refuses uses up the pending namespace
    all the same: the next emission has no nsp key, while the flags that
    the refused emission left go out with it. *)
Theorem refused_emission_uses_up_namespace
    (Encode : value → encoded) (Get : World → pooled)
    (Do : string → list Byte.byte → option string)
    (binary binary' : bool) (e : Emitter) (w : World)
    (event event' : string) (data data' : list value) (r : EmitResult) (err : string) :
  emitBy Encode Get Do binary e w event data = Ok r →
  Encode (pack r) = EncodeError err →
  ∃ r', emitBy Encode Get Do binary' (session r) (world r) event' data' = Ok r' ∧
    packetOf (pack r') ≫= lookup "nsp" = None ∧
    optionsOf (pack r') ≫= lookup "flags" = Some (VMap (flags (session r))) ∧
    ∀ k, k ≠ "nsp" → flags (session r) ≫= lookup k = flags e ≫= lookup k.
Proof.
  intros Hr Henc.
  destruct (emitBy_outcome Encode Get Do binary e w event data) as (r0 & Hr0 & Hcases).
  rewrite Hr in Hr0. injection Hr0 as <-. rewrite Henc in Hcases.
  destruct Hcases as (Hsession & _ & _).
  assert (isNil (index (flags (session r)) "nsp") = true) as Hnil.
  { rewrite Hsession. simpl.
    destruct (isNil (index (flags e) "nsp")) eqn:Hn; [done|].
    destruct (flags e) as [g|]; [|done]. simpl. by rewrite lookup_delete_eq. }
  rewrite emitBy_emit.
  destruct (emit_packet Encode Get Do (session r) (world r) (packetBy binary' event' data'))
    as (r' & Hr' & Hpacket & Hoptions).
  exists r'. split; [done|]. rewrite Hpacket, Hoptions, Hnil. simpl.
  split_and!; [by destruct binary'|done|].
  intros k Hk. rewrite Hsession. simpl.
  destruct (isNil (index (flags e) "nsp")); [done|]. by apply remove_lookup_ne.
Qed.

(** [chatSession] emits a func value, then "again". *)
Lemma refused_emission_uses_up_namespace_witness :
  index (flags chatSession) "nsp" = VString "/chat" ∧
  ∃ r', emitBy sampleEncode poolUp connUp false
          (session (sessionResult (Emit sampleEncode poolUp connUp chatSession quiet "news" [VFunc])))
          (world (sessionResult (Emit sampleEncode poolUp connUp chatSession quiet "news" [VFunc])))
          "again" [] = Ok r' ∧
    packetOf (pack r') ≫= lookup "nsp" = None ∧
    optionsOf (pack r') ≫= lookup "flags" = Some (VMap (Some {["join" := VBool true]})).
Proof.
  split; [vm_compute; reflexivity|].
  assert (emitBy sampleEncode poolUp connUp false chatSession quiet "news" [VFunc]
          = Ok (sessionResult (Emit sampleEncode poolUp connUp chatSession quiet "news" [VFunc])))
    as Hr by (vm_compute; reflexivity).
  assert (sampleEncode
            (pack (sessionResult (Emit sampleEncode poolUp connUp chatSession quiet "news" [VFunc])))
          = EncodeError "msgpack: Encode(unsupported func())")
    as Henc by (vm_compute; reflexivity).
  destruct (refused_emission_uses_up_namespace sampleEncode poolUp connUp false false
              _ _ "news" "again" [VFunc] [] _ _ Hr Henc)
    as (r' & Hr' & Hnsp & Hflags & _).
  exists r'. split_and!; [exact Hr'|exact Hnsp|].
  rewrite Hflags. vm_compute. reflexivity.
Defined.

(** ** Channel names *)

Lemma length_append (s t : string) :
  String.length (s +:+ t) = (String.length s + String.length t)%nat.
Proof. induction s as [|a s IH]; [done|]. rewrite append_cons. simpl. by rewrite IH. Qed.

Lemma append_cancel_r (s1 s2 t : string) : s1 +:+ t = s2 +:+ t → s1 = s2.
Proof.
  revert s2. induction s1 as [|a s1 IH]; intros [|b s2]; try done.
  - intros H. apply (f_equal String.length) in H.
    rewrite !length_append in H. simpl in H. lia.
  - intros H. apply (f_equal String.length) in H.
    rewrite !length_append in H. simpl in H. lia.
  - rewrite !append_cons. intros [= -> H]. f_equal. by apply IH.
Qed.

(** X21.  The channel of an emission is a function of the key and the
    rooms alone: on a session reached from the constructor the bytes go to
    "{key}#/#{room}#" when exactly one room is held and to "{key}#/#" when
    none or several are, whatever the flags, the namespace, the event, the
    arguments and the way of emitting. *)
Theorem channel_of_key_and_rooms
    (Encode : value → encoded) (Get : World → pooled)
    (Do : string → list Byte.byte → option string)
    (o : EmitterOpts) (cs : list call) (e : Emitter) (w : World)
    (binary : bool) (event : string) (data : list value) :
  run Encode Get Do cs (NewEmitter o, quiet) = Ok (e, w) →
  ∃ r, emitBy Encode Get Do binary e w event data = Ok r ∧
    ∀ buf, Encode (pack r) = Encoded buf →
      wire (world r)
      = wire w ++ [(match rooms e with
                    | [room] => Key e +:+ "#/#" +:+ room +:+ "#"
                    | _ => Key e +:+ "#/#"
                    end, buf)].
Proof.
  intros Hcons%run_NewEmitter_consistent.
  destruct (emitBy_cases Encode Get Do binary e w event data Hcons) as (r & Hr & _ & Hcases).
  exists r. split; [done|]. intros buf Henc. rewrite Henc in Hcases.
  destruct Hcases as (_ & _ & ->).
  rewrite publish_wire, (consistent_channel _ Hcons).
  destruct (rooms e) as [|room [|room' rs]]; try done.
  by rewrite append_assoc.
Qed.

(** A process of key "live" with the one room "r1", then with a second
    room. *)
Lemma channel_of_key_and_rooms_witness :
  (∃ r, emitBy sampleEncode poolUp connUp true
          (In "r1" (NewEmitter {| Host := ""; Port := 0; OptsKey := "live";
                                  Protocol := ""; Addr := "" |}))
          quiet "news" [] = Ok r ∧
        channels (world r) = ["live#/#r1#"]) ∧
  (∃ r, emitBy sampleEncode poolUp connUp true
          (In "r2" (In "r1" (NewEmitter {| Host := ""; Port := 0; OptsKey := "live";
                                           Protocol := ""; Addr := "" |})))
          quiet "news" [] = Ok r ∧
        channels (world r) = ["live#/#"]).
Proof.
  split.
  - destruct (channel_of_key_and_rooms sampleEncode poolUp connUp
                {| Host := ""; Port := 0; OptsKey := "live"; Protocol := ""; Addr := "" |}
                [CIn "r1"] _ quiet true "news" [] eq_refl) as (r & Hr & Hpub).
    exists r. split; [exact Hr|]. unfold channels.
    rewrite (Hpub (bytesOf (sampleEncode (pack r)))); [reflexivity|].
    apply Ok_inj in Hr. rewrite <-Hr. vm_compute. reflexivity.
  - destruct (channel_of_key_and_rooms sampleEncode poolUp connUp
                {| Host := ""; Port := 0; OptsKey := "live"; Protocol := ""; Addr := "" |}
                [CIn "r1"; CIn "r2"] _ quiet true "news" [] eq_refl) as (r & Hr & Hpub).
    exists r. split; [exact Hr|]. unfold channels.
    rewrite (Hpub (bytesOf (sampleEncode (pack r)))); [reflexivity|].
    apply Ok_inj in Hr. rewrite <-Hr. vm_compute. reflexivity.
Defined.

(** X22.  Sessions of different keys have different base and request
    channels, and the same key gives the same channels: the channel names
    tell the keys apart. *)
Theorem channels_tell_keys_apart (o1 o2 : EmitterOpts) :
  (broadcastChannel (opts (NewEmitter o1)) = broadcastChannel (opts (NewEmitter o2))
   ↔ Key (NewEmitter o1) = Key (NewEmitter o2)) ∧
  (requestChannel (opts (NewEmitter o1)) = requestChannel (opts (NewEmitter o2))
   ↔ Key (NewEmitter o1) = Key (NewEmitter o2)).
Proof.
  simpl. split; (split; [apply append_cancel_r|by intros ->]).
Qed.

(** ** The constructor and the connection pool *)

(** X23.  How the pool finds its address: an address option, when given,
    is dialled whatever the host and port say; without it a host is used
    only together with a port above zero, so a host without such a port,
    like a port without a host, is dropped and "localhost:6379" is
    dialled. *)
Theorem pool_address_resolution (o : EmitterOpts) :
  (Addr o ≠ "" → DialAddr (initRedisConnPool o) = Addr o) ∧
  (Addr o = "" → Host o ≠ "" → 0 < Port o →
   DialAddr (initRedisConnPool o) = Host o +:+ ":" +:+ Itoa (Port o)) ∧
  (Addr o = "" → Host o = "" ∨ Port o ≤ 0 →
   DialAddr (initRedisConnPool o) = "localhost:6379").
Proof.
  unfold initRedisConnPool. simpl. split_and!.
  - intros Ha%String.eqb_neq. by rewrite Ha.
  - intros -> Hh%String.eqb_neq Hp%Z.ltb_lt. simpl. by rewrite Hh, Hp.
  - intros -> [->|Hp]; simpl; [done|].
    apply Z.ltb_ge in Hp. rewrite Hp. by rewrite andb_false_r.
Qed.

(** X24.  Whatever the options, the pool dials "tcp" at an address that
    is not empty, with the limits 80 and 10000; the protocol and key
    options play no part in it, so the pool of the session [NewEmitter]
    returns is the pool of the options as given. *)
Theorem pool_ignores_protocol_and_key (o : EmitterOpts) (protocol key : string) :
  DialNetwork (initRedisConnPool o) = "tcp" ∧
  DialAddr (initRedisConnPool o) ≠ "" ∧
  MaxIdle (initRedisConnPool o) = 80 ∧
  MaxActive (initRedisConnPool o) = 10000 ∧
  initRedisConnPool {| Host := Host o; Port := Port o; OptsKey := key;
                       Protocol := protocol; Addr := Addr o |}
  = initRedisConnPool o ∧
  NewEmitterPool o = initRedisConnPool o.
Proof.
  split_and!; try done.
  unfold initRedisConnPool. simpl.
  destruct (String.eqb_spec (Addr o) "") as [Ha|Ha]; simpl; [|done].
  destruct (String.eqb_spec (Host o) "") as [Hh|Hh]; simpl; [done|].
  destruct (0 <? Port o); [|done].
  destruct (Host o); [done|]. by rewrite append_cons.
Qed.

(** X25.  The key of a new session is never empty: it is the key given,
    or "socket.io".  The constructor writes that key back into the options,
    and building again from the options it left gives the same session and
    leaves them as they are; host, port, protocol and address have no
    part in the session's key, channels, rooms and flags. *)
Theorem NewEmitter_key_default (o : EmitterOpts) :
  Key (NewEmitter o) ≠ "" ∧
  (OptsKey o ≠ "" → Key (NewEmitter o) = OptsKey o) ∧
  (OptsKey o = "" → Key (NewEmitter o) = "socket.io") ∧
  OptsKey (optsAfterNewEmitter o) = Key (NewEmitter o) ∧
  NewEmitter (optsAfterNewEmitter o) = NewEmitter o ∧
  optsAfterNewEmitter (optsAfterNewEmitter o) = optsAfterNewEmitter o ∧
  (∀ host port protocol addr,
     NewEmitter {| Host := host; Port := port; OptsKey := OptsKey o;
                   Protocol := protocol; Addr := addr |}
     = NewEmitter o).
Proof.
  unfold NewEmitter, optsAfterNewEmitter. simpl.
  destruct (String.eqb_spec (OptsKey o) "") as [Hk|Hk]; simpl.
  - split_and!; try done.
  - destruct (String.eqb_spec (OptsKey o) "") as [Hk'|_]; [done|].
    split_and!; try done.
Qed.

(** ** Errors and counts *)

(** X26.  The error an emission returns is the error of the encoder and
    nothing else: no error is returned exactly when the encoder accepts the
    envelope, and an answer of the connection never shows in it. *)
Theorem emission_error_is_encoder_error
    (Encode : value → encoded) (Get : World → pooled)
    (Do : string → list Byte.byte → option string)
    (binary : bool) (e : Emitter) (w : World) (event : string) (data : list value) :
  ∃ r, emitBy Encode Get Do binary e w event data = Ok r ∧
    error r = match Encode (pack r) with
              | Encoded _ => None
              | EncodeError err => Some err
              end.
Proof.
  destruct (emitBy_outcome Encode Get Do binary e w event data) as (r & Hr & Hcases).
  exists r. split; [done|].
  destruct (Encode (pack r)); by destruct Hcases as (_ & -> & _).
Qed.

(** X27.  A PUBLISH is sent only on a live connection.  When the pool
    never hands one out (every dial is refused, or the pool is exhausted),
    no sequence of calls sends anything, although each emission still hands
    its command to [c.Do] and returns no error; when the pool always hands
    one out, every command handed to [c.Do] is on a live connection. *)
Theorem sent_only_on_live_connection
    (Encode : value → encoded) (Get : World → pooled)
    (Do : string → list Byte.byte → option string)
    (cs : list call) (e e' : Emitter) (w w' : World) :
  run Encode Get Do cs (e, w) = Ok (e', w') →
  ((∀ w0, givesLive (Get w0) = false) → sentLive w' = sentLive w) ∧
  ((∀ w0, givesLive (Get w0) = true) →
   ∃ calls, wire w' = wire w ++ calls ∧ sentLive w' = sentLive w ++ calls).
Proof.
  intros (calls & writes & live & Hw & _ & Hs & _ & _ & _ & _ & Hup & Hdown & _)%run_added.
  split.
  - intros Hnever. by rewrite Hs, (Hdown Hnever), app_nil_r.
  - intros Hlive. exists calls. split; [done|].
    destruct (Hup Hlive) as [<- _]. done.
Qed.

(** Two emissions on a pool whose dial is refused: two commands handed to
    [c.Do], none sent. *)
Lemma sent_only_on_live_connection_witness :
  run sampleEncode poolDown connUp [CEmit "a" []; CIn "x"; CEmitBinary "b" []] (NewEmitter noOpts, quiet)
  = Ok (sessionAfter (run sampleEncode poolDown connUp [CEmit "a" []; CIn "x"; CEmitBinary "b" []] (NewEmitter noOpts, quiet)),
        worldAfter (run sampleEncode poolDown connUp [CEmit "a" []; CIn "x"; CEmitBinary "b" []] (NewEmitter noOpts, quiet))) ∧
  length (wire (worldAfter
            (run sampleEncode poolDown connUp [CEmit "a" []; CIn "x"; CEmitBinary "b" []] (NewEmitter noOpts, quiet)))) = 2%nat ∧
  sentLive (worldAfter
              (run sampleEncode poolDown connUp [CEmit "a" []; CIn "x"; CEmitBinary "b" []] (NewEmitter noOpts, quiet))) = [].
Proof.
  assert (run sampleEncode poolDown connUp [CEmit "a" []; CIn "x"; CEmitBinary "b" []] (NewEmitter noOpts, quiet)
          = Ok (sessionAfter
                  (run sampleEncode poolDown connUp [CEmit "a" []; CIn "x"; CEmitBinary "b" []] (NewEmitter noOpts, quiet)),
                worldAfter
                  (run sampleEncode poolDown connUp [CEmit "a" []; CIn "x"; CEmitBinary "b" []] (NewEmitter noOpts, quiet))))
    as Hrun by (vm_compute; reflexivity).
  split_and!; [exact Hrun|vm_compute; reflexivity|].
  exact (proj1 (sent_only_on_live_connection sampleEncode poolDown connUp _ _ _ _ _ Hrun)
           (λ _, eq_refl)).
Defined.

(** ** What the flags hold *)

Section FlagFacts.

Variable Encode : value → encoded.
Variable Get : World → pooled.
Variable Do : string → list Byte.byte → option string.

Lemma flagKey_entry (c : call) (k : string) : flagKey c = Some k → flagEntry k (flagValue c).
Proof.
  destruct c; simpl; try done; intros [= <-]; unfold flagEntry; eauto 6.
Qed.

Lemma step_entries (c : call) (e e' : Emitter) (w w' : World) :
  (∀ k v, flags e ≫= lookup k = Some v → flagEntry k v) →
  step Encode Get Do c (e, w) = Ok (e', w') →
  ∀ k v, flags e' ≫= lookup k = Some v → flagEntry k v.
Proof.
  intros Hentries.
  destruct (call_kinds c) as [[k0 Hk0]|[[room Hroom]|Hemit]].
  - rewrite (step_setter _ _ _ c k0) by done.
    destruct (flags e) as [g|] eqn:Hg; [|done]. intros [= <- <-] k v. simpl.
    destruct (decide (k0 = k)) as [<-|Hne].
    + rewrite lookup_insert_eq. intros [= <-]. by apply flagKey_entry.
    + rewrite lookup_insert_ne by done. apply Hentries.
  - rewrite (step_room _ _ _ c room) by done. intros [= <- <-] k v.
    rewrite In_flags. apply Hentries.
  - destruct (step_emission Encode Get Do c e w Hemit) as (binary & event & data & ->).
    destruct (emitBy_outcome Encode Get Do binary e w event data) as (r & -> & Hcases).
    rewrite bind_Ok. intros [= <- <-] k v.
    destruct (Encode (pack r)).
    + destruct Hcases as (-> & _). simpl. by rewrite lookup_empty.
    + destruct Hcases as (-> & _). simpl.
      destruct (isNil (index (flags e) "nsp")); [apply Hentries|].
      destruct (decide ("nsp" = k)) as [<-|Hne].
      * by rewrite remove_lookup.
      * rewrite remove_lookup_ne by done. apply Hentries.
Qed.

Lemma run_entries (cs : list call) (e e' : Emitter) (w w' : World) :
  (∀ k v, flags e ≫= lookup k = Some v → flagEntry k v) →
  run Encode Get Do cs (e, w) = Ok (e', w') →
  ∀ k v, flags e' ≫= lookup k = Some v → flagEntry k v.
Proof.
  revert e w. induction cs as [|c cs IH]; intros e w Hentries.
  - by intros [= <- <-].
  - rewrite run_cons.
    destruct (step Encode Get Do c (e, w)) as [[e1 w1]|] eqn:Hstep; [|done].
    rewrite bind_Ok. apply IH. by eapply step_entries.
Qed.

End FlagFacts.

(** X28.  The flags of a session reached from the constructor hold nothing
    but what the setters write: join, volatile and broadcast with the value
    true, and nsp with a string.  The flags handed to the encoder, from
    which nsp is taken out, hold the three delivery flags only. *)
Theorem flags_hold_setter_entries
    (Encode : value → encoded) (Get : World → pooled)
    (Do : string → list Byte.byte → option string)
    (o : EmitterOpts) (cs : list call) (e : Emitter) (w : World) :
  run Encode Get Do cs (NewEmitter o, quiet) = Ok (e, w) →
  (∀ k v, flags e ≫= lookup k = Some v → flagEntry k v) ∧
  (∀ k v, remove (flags e) "nsp" ≫= lookup k = Some v →
     (k = "join" ∨ k = "volatile" ∨ k = "broadcast") ∧ v = VBool true).
Proof.
  intros Hrun.
  assert (∀ k v, flags e ≫= lookup k = Some v → flagEntry k v) as Hentries.
  { by eapply run_entries; [|exact Hrun]. }
  split; [done|]. intros k v.
  destruct (decide ("nsp" = k)) as [<-|Hne]; [by rewrite remove_lookup|].
  rewrite remove_lookup_ne by done. intros [Hflag|[Hk _]]%Hentries; [done|congruence].
Qed.

(** The flags [sampleCalls] leave: the namespace and broadcast. *)
Lemma flags_hold_setter_entries_witness :
  run sampleEncode poolUp connUp sampleCalls (NewEmitter noOpts, quiet)
  = Ok (sessionAfter sampleRun, worldAfter sampleRun) ∧
  flags (sessionAfter sampleRun) ≫= lookup "broadcast" = Some (VBool true) ∧
  flagEntry "broadcast" (VBool true).
Proof.
  assert (run sampleEncode poolUp connUp sampleCalls (NewEmitter noOpts, quiet)
          = Ok (sessionAfter sampleRun, worldAfter sampleRun)) as Hrun
    by (vm_compute; reflexivity).
  assert (flags (sessionAfter sampleRun) ≫= lookup "broadcast" = Some (VBool true))
    as Hb by (vm_compute; reflexivity).
  split_and!; [exact Hrun|exact Hb|].
  exact (proj1 (flags_hold_setter_entries sampleEncode poolUp connUp noOpts _ _ _ Hrun) _ _ Hb).
Defined.
